(** * depinj-express: request-scoped injection for express handlers

    A shallow embedding of [src/injected-handler.ts] and
    [src/injected-middleware.ts].  The two files wrap a service that is
    registered in a depinj-js [Injector] into an express handler: on each call
    they create (or reuse) the scope of the request, bind the scope's
    [endScope] to the ['finish'] event of the response, resolve the service
    and call it.

    JavaScript values are a small inductive type, objects live in a heap, the
    code is written in a state-and-exception monad over a [World], and the
    two collaborators the code is typed against (the depinj-js [Injector] and
    the bodies of the registered functions) are interfaces.

    What the model fixes:
    - the response is an event emitter: [on] appends a listener, [emit] calls
      the listeners in order;
    - the collaborators work on the store (the heap and the state of the
      container); they register no listener on the response and emit none
      of its events;
    - a call that returns a promise is run up to the moment the promise
      settles, so an invocation of a handler is one step. *)

From Stdlib Require Import ZArith String List.
From stdpp Require Import base option gmap strings list.

Local Open Scope string_scope.
Local Open Scope list_scope.

(** ** Values *)

(** Identity of a JavaScript object (requests, responses, scopes, service
    instances are all objects and are compared by identity). *)
Abbreviation loc := positive.

(** The values the code can see.  [VBound target this] is the function
    [target.bind(this)]; an [Error] object is given by its name and message;
    a promise is given by the way it settles. *)
Inductive value : Type :=
| VUndefined
| VNull
| VBool (b : bool)
| VNum (n : Z)
| VStr (s : string)
| VRef (l : loc)
| VBound (target this : value)
| VError (name message : string)
| VFulfilled (v : value)
| VRejected (reason : value)
| VPending.

(** A heap object: its own and inherited members, and, for a function
    object, the code it runs when called. *)
Record object : Type := Object {
  obj_code : option nat;
  obj_props : gmap string value
}.

(** Outcome of a synchronous call: it returns or it throws. *)
Inductive completion (A : Type) : Type :=
| Normal (a : A)
| Abrupt (e : value).
Arguments Normal {A} a.
Arguments Abrupt {A} e.

(** A listener of an event emitter.  [Teardown scoped] is the one function
    the code registers, [scoped.endScope.bind(scoped)], kept as the closure it
    is; [Listener f] is any other function. *)
Inductive listener : Type :=
| Teardown (scoped : loc)
| Listener (f : value).

(** What the code and the event emitter of the response do, in order. *)
Inductive event : Type :=
| EvCreateScope (context : loc)
| EvOn (emitter : loc) (name : string) (l : listener)
| EvGetService (scope : loc) (name : string)
| EvCall (code : nat) (this : value) (args : list value)
| EvEndScope (scope : loc).

(** ** State *)

(** The state the collaborators work on: the heap and the state of the
    container, whose type [C] the code never looks into. *)
Record Store (C : Type) : Type := MkStore {
  heap : gmap loc object;
  container : C
}.
Arguments MkStore {C} heap container.
Arguments heap {C} s.
Arguments container {C} s.

(** The world adds the listeners of each emitter, per event name and in
    registration order, and the trace of events. *)
Record World (C : Type) : Type := MkWorld {
  store : Store C;
  listeners : gmap (loc * string) (list listener);
  log : list event
}.
Arguments MkWorld {C} store listeners log.
Arguments store {C} w.
Arguments listeners {C} w.
Arguments log {C} w.

(** ** The monad of the code *)

(** A step of an (async) function body: a value, an exception, or a
    suspension at an [await] on a promise that never settles. *)
Inductive result (A : Type) : Type :=
| Ok (a : A)
| Throw (e : value)
| Suspend.
Arguments Ok {A} a.
Arguments Throw {A} e.
Arguments Suspend {A}.

Definition M (C A : Type) : Type := World C -> result A * World C.

Definition ret {C A} (a : A) : M C A := fun w => (Ok a, w).

Definition bind {C A B} (m : M C A) (k : A -> M C B) : M C B :=
  fun w =>
    match m w with
    | (Ok a, w') => k a w'
    | (Throw e, w') => (Throw e, w')
    | (Suspend, w') => (Suspend, w')
    end.

Definition throw {C A} (e : value) : M C A := fun w => (Throw e, w).

Notation "'let*' x ':=' m 'in' k" := (bind m (fun x => k))
  (at level 10, x name, m at level 100, k at level 200).

Definition exec {C A} (m : M C A) (w : World C) : World C := snd (m w).
Definition eval {C A} (m : M C A) (w : World C) : result A := fst (m w).

(** A call into a collaborator: it works on the store only. *)
Definition lift {C A} (f : Store C -> completion A * Store C) : M C A :=
  fun w =>
    match f (store w) with
    | (Normal a, st) => (Ok a, MkWorld st (listeners w) (log w))
    | (Abrupt e, st) => (Throw e, MkWorld st (listeners w) (log w))
    end.

Definition trace {C} (ev : event) : M C unit :=
  fun w => (Ok tt, MkWorld (store w) (listeners w) (log w ++ [ev])).

(** ** The operators of the language *)

(** [typeof v]. *)
Definition typeof (h : gmap loc object) (v : value) : string :=
  match v with
  | VUndefined => "undefined"
  | VNull => "object"
  | VBool _ => "boolean"
  | VNum _ => "number"
  | VStr _ => "string"
  | VRef l =>
      match h !! l ≫= obj_code with
      | Some _ => "function"
      | None => "object"
      end
  | VBound _ _ => "function"
  | VError _ _ | VFulfilled _ | VRejected _ | VPending => "object"
  end.

Definition TypeError (message : string) : value := VError "TypeError" message.

(** [v.p]: a [TypeError] on [null] and [undefined]; the member of a heap
    object, [undefined] when it has none.  The members of the built-in
    prototypes (of primitives, functions, errors and promises) are not
    modelled; the code only reads [handle], which none of them has. *)
Definition get_prop (h : gmap loc object) (v : value) (p : string)
  : completion value :=
  match v with
  | VUndefined =>
      Abrupt (TypeError ("Cannot read properties of undefined (reading '" +:+ p +:+ "')"))
  | VNull =>
      Abrupt (TypeError ("Cannot read properties of null (reading '" +:+ p +:+ "')"))
  | VRef l => Normal (default VUndefined (h !! l ≫= fun o => obj_props o !! p))
  | _ => Normal VUndefined
  end.

Definition js_typeof {C} (v : value) : M C string :=
  fun w => (Ok (typeof (heap (store w)) v), w).

Definition js_get {C} (v : value) (p : string) : M C value :=
  fun w =>
    match get_prop (heap (store w)) v p with
    | Normal x => (Ok x, w)
    | Abrupt e => (Throw e, w)
    end.

(** [await v]: the value of a fulfilled promise, the reason of a rejected one
    as an exception, no continuation for a promise that never settles, and
    [v] itself when it is no promise.  The world that comes with a promise is
    the world at the time the promise settles. *)
Definition await_value {C} (v : value) : M C value :=
  match v with
  | VFulfilled x => ret x
  | VRejected e => throw e
  | VPending => fun w => (Suspend, w)
  | _ => ret v
  end.

Definition await {C} (m : M C value) : M C value :=
  let* v := m in await_value v.

(** The promise an [async] function returns for its body. *)
Definition settle (r : result unit) : value :=
  match r with
  | Ok _ => VFulfilled VUndefined
  | Throw e => VRejected e
  | Suspend => VPending
  end.

Definition async {C} (body : M C unit) : M C value :=
  fun w => let (r, w') := body w in (Ok (settle r), w').

(** ** The collaborators *)

(** The part of the depinj-js [Injector] the code is typed against:
    [injector.createScope(context)] gives the scope object of a context,
    [scope.getService(name)] an instance or an exception, and
    [scope.endScope()] ends the scope. *)
Class Injector (C : Type) : Type := {
  createScope : loc -> Store C -> completion loc * Store C;
  getService : loc -> string -> Store C -> completion value * Store C;
  endScope : loc -> Store C -> Store C
}.

(** The guarantee the code relies on: the scope of a context is decided by
    the identity of the context, the same object for the same context and
    different objects for different contexts. *)
Class InjectorLaws (C : Type) `{Injector C} : Type := {
  scope_of : loc -> loc;
  scope_of_inj : forall ctx1 ctx2, scope_of ctx1 = scope_of ctx2 -> ctx1 = ctx2;
  createScope_scope_of :
    forall ctx st, fst (createScope ctx st) = Normal (scope_of ctx)
}.

(** The bodies of the function objects of the application (the registered
    handlers, the [handle] methods, [next]): what the code with number
    [code] does to the store when it is called with [this] and [args]. *)
Class UserCode (C : Type) : Type := {
  fn_body : nat -> value -> list value -> Store C -> completion value * Store C
}.

Section Core.
Context {C : Type} `{Injector C} `{UserCode C}.

(** ** Calls *)

Definition injector_createScope (context : loc) : M C loc :=
  let* _ := trace (EvCreateScope context) in
  lift (createScope context).

Definition scope_getService (scope : loc) (name : string) : M C value :=
  let* _ := trace (EvGetService scope name) in
  lift (getService scope name).

Definition scope_endScope (scope : loc) : M C value :=
  let* _ := trace (EvEndScope scope) in
  lift (fun st => (Normal VUndefined, endScope scope st)).

Definition not_a_function : value := TypeError "value is not a function".

(** [f.call(this, ...args)]: a bound function runs its target with the
    [this] it was bound to. *)
Fixpoint call (f this : value) (args : list value) : M C value :=
  match f with
  | VBound target bound_this => call target bound_this args
  | VRef l =>
      fun w =>
        match heap (store w) !! l ≫= obj_code with
        | Some code =>
            (let* _ := trace (EvCall code this args) in
             lift (fn_body code this args)) w
        | None => (Throw not_a_function, w)
        end
  | _ => throw not_a_function
  end.

(** [o.m(...args)]. *)
Definition call_method (o : value) (m : string) (args : list value) : M C value :=
  let* f := js_get o m in
  call f o args.

(** ** The event emitter of the response *)

Definition listeners_of (w : World C) (emitter : loc) (name : string) : list listener :=
  default [] (listeners w !! (emitter, name)).

(** [emitter.on(name, listener)]. *)
Definition response_on (emitter : loc) (name : string) (l : listener) : M C unit :=
  fun w =>
    (Ok tt,
     MkWorld (store w)
       (<[(emitter, name) := listeners_of w emitter name ++ [l]]> (listeners w))
       (log w ++ [EvOn emitter name l])).

Definition call_listener (this : value) (l : listener) : M C value :=
  match l with
  | Teardown scoped => scope_endScope scoped
  | Listener f => call f this []
  end.

Fixpoint call_listeners (this : value) (ls : list listener) : M C unit :=
  match ls with
  | [] => ret tt
  | l :: ls' =>
      let* _ := call_listener this l in
      call_listeners this ls'
  end.

(** [emitter.emit(name)]: the listeners registered at that moment, in order,
    with the emitter as [this]; an exception of a listener ends it. *)
Definition response_emit (emitter : loc) (name : string) : M C unit :=
  fun w => call_listeners (VRef emitter) (listeners_of w emitter name) w.

(** ** injected-handler.ts *)

Definition double_quote : string := String (Ascii.ascii_of_nat 34) EmptyString.

Definition invalid_middleware_message (middlewareName : string) : string :=
  "The instance registered to " +:+ double_quote +:+ middlewareName +:+ double_quote +:+
  " is not a valid middleware. It must either be a handler function or contain a handle method.".

Definition getHandler (middlewareName : string) (request response : loc) : M C value :=
  let* scoped := injector_createScope request in
  let* _ := response_on response "finish" (Teardown scoped) in
  let* scopedHandler := scope_getService scoped middlewareName in
  let* t := js_typeof scopedHandler in
  if String.eqb t "function" then ret scopedHandler
  else
    let* handle := js_get scopedHandler "handle" in
    let* t' := js_typeof handle in
    if String.eqb t' "function" then ret (VBound handle scopedHandler)
    else throw (VError "Error" (invalid_middleware_message middlewareName)).

Definition toInjectedHandler (middlewareName : string)
  (req res : loc) (next : value) : M C value :=
  async (
    let* instantiatedHandler := getHandler middlewareName req res in
    let* _ := await (call instantiatedHandler VUndefined [VRef req; VRef res; next]) in
    ret tt).

Definition toInjectedErrorHandler (middlewareName : string)
  (err : value) (req res : loc) (next : value) : M C value :=
  async (
    let* instantiatedHandler := getHandler middlewareName req res in
    let* _ := await (call instantiatedHandler VUndefined [err; VRef req; VRef res; next]) in
    ret tt).

(** ** injected-middleware.ts *)

(** [DependentType]: a registered name, or a class, of which the code reads
    the [name]. *)
Record Constructor : Type := MkConstructor { class_name : string }.

Inductive Dependent : Type :=
| ByName (name : string)
| ByType (type : Constructor).

Definition serviceName (DependentType : Dependent) : string :=
  match DependentType with
  | ByName name => name
  | ByType type => class_name type
  end.

Definition toInjectedMiddleware (DependentType : Dependent)
  (req res : loc) (next : value) : M C value :=
  async (
    let* scoped := injector_createScope req in
    let* _ := response_on res "finish" (Teardown scoped) in
    let* scopedHandler := scope_getService scoped (serviceName DependentType) in
    let* _ := await (call_method scopedHandler "handle" [VRef req; VRef res; next]) in
    ret tt).

(** ** Requests in sequence and the events of a step *)

(** One call, by the pipeline, of a handler the code produced. *)
Inductive Invocation : Type :=
| InvokeHandler (middlewareName : string) (next : value)
| InvokeErrorHandler (middlewareName : string) (err next : value)
| InvokeMiddleware (DependentType : Dependent) (next : value).

Definition invoke (req res : loc) (i : Invocation) : M C value :=
  match i with
  | InvokeHandler middlewareName next =>
      toInjectedHandler middlewareName req res next
  | InvokeErrorHandler middlewareName err next =>
      toInjectedErrorHandler middlewareName err req res next
  | InvokeMiddleware DependentType next =>
      toInjectedMiddleware DependentType req res next
  end.

(** The name an invocation looks up. *)
Definition service_of (i : Invocation) : string :=
  match i with
  | InvokeHandler middlewareName _ => middlewareName
  | InvokeErrorHandler middlewareName _ _ => middlewareName
  | InvokeMiddleware DependentType _ => serviceName DependentType
  end.

(** The pipeline calls the handlers of a request one after the other. *)
Definition invoke_all (req res : loc) (calls : list Invocation) (w : World C) : World C :=
  fold_left (fun w i => exec (invoke req res i) w) calls w.

(** The events a step adds to the trace. *)
Definition events_of {A} (m : M C A) (w : World C) : list event :=
  drop (length (log w)) (log (exec m w)).

Definition is_endScope (scope : loc) (ev : event) : bool :=
  match ev with
  | EvEndScope s => Pos.eqb s scope
  | _ => false
  end.

(** How often [endScope] is called on a scope among some events. *)
Definition endScope_calls (scope : loc) (evs : list event) : nat :=
  length (List.filter (is_endScope scope) evs).

Definition is_call (ev : event) : bool :=
  match ev with
  | EvCall _ _ _ => true
  | _ => false
  end.

Definition is_endScope_event (ev : event) : bool :=
  match ev with
  | EvEndScope _ => true
  | _ => false
  end.

(** The scopes the code registers a teardown for or asks for a service. *)
Definition scopes_used (evs : list event) : list loc :=
  flat_map
    (fun ev =>
       match ev with
       | EvOn _ _ (Teardown s) => [s]
       | EvGetService s _ => [s]
       | _ => []
       end)
    evs.

Definition is_teardown (l : listener) : bool :=
  match l with
  | Teardown _ => true
  | Listener _ => false
  end.

(** The code a call of [f] runs and the [this] it runs it with, if [f] is a
    function. *)
Fixpoint callee (h : gmap loc object) (f this : value) : option (nat * value) :=
  match f with
  | VBound target bound_this => callee h target bound_this
  | VRef l =>
      match h !! l ≫= obj_code with
      | Some code => Some (code, this)
      | None => None
      end
  | _ => None
  end.

(** The world in which the code looks at the instance: the scope [scoped] was
    created, its teardown listens to ['finish'] on the response, and the
    service was asked for, leaving the store [st]. *)
Definition resolved_world (w : World C) (req res scoped : loc) (name : string)
  (st : Store C) : World C :=
  MkWorld st
    (<[(res, "finish") := listeners_of w res "finish" ++ [Teardown scoped]]> (listeners w))
    (log w ++ [EvCreateScope req; EvOn res "finish" (Teardown scoped);
               EvGetService scoped name]).

(** The ways a wrapped handler called with [args] can fail: the container
    throws when asked for the scope or for the service, or the handler
    itself throws or returns a promise that rejects.  [fails ... e w'] gives
    the error and the world at that moment. *)
Inductive fails (name : string) (req res : loc) (args : list value) (w : World C)
  : value -> World C -> Prop :=
| ScopeFails e st :
    createScope req (store w) = (Abrupt e, st) ->
    fails name req res args w e
      (MkWorld st (listeners w) (log w ++ [EvCreateScope req]))
| ServiceFails scoped st1 e st2 :
    createScope req (store w) = (Normal scoped, st1) ->
    getService scoped name st1 = (Abrupt e, st2) ->
    fails name req res args w e (resolved_world w req res scoped name st2)
| HandlerThrows h w1 e w2 :
    getHandler name req res w = (Ok h, w1) ->
    call h VUndefined args w1 = (Throw e, w2) ->
    fails name req res args w e w2
| HandlerRejects h w1 e w2 :
    getHandler name req res w = (Ok h, w1) ->
    call h VUndefined args w1 = (Ok (VRejected e), w2) ->
    fails name req res args w e w2.

(** What [getHandler] makes of the instance the scope gave it. *)
Definition classify (h : gmap loc object) (middlewareName : string)
  (scopedHandler : value) : result value :=
  if String.eqb (typeof h scopedHandler) "function" then Ok scopedHandler
  else
    match get_prop h scopedHandler "handle" with
    | Normal handle =>
        if String.eqb (typeof h handle) "function"
        then Ok (VBound handle scopedHandler)
        else Throw (VError "Error" (invalid_middleware_message middlewareName))
    | Abrupt e => Throw e
    end.

(** The promise an async function gives when its body awaits a call and
    ends. *)
Definition awaited (r : result value) : value :=
  match r with
  | Ok (VRejected e) => VRejected e
  | Ok VPending => VPending
  | Ok _ => VFulfilled VUndefined
  | Throw e => VRejected e
  | Suspend => VPending
  end.

(** The values a handler of type [Promise<void>] returns. *)
Definition promise_of_void (p : value) : Prop :=
  p = VFulfilled VUndefined \/ (exists e, p = VRejected e) \/ p = VPending.

End Core.

(** ** Several requests *)

Section Requests.
Context {C : Type} `{Injector C} `{UserCode C}.

(** The calls the pipeline makes over time, each with the request and the
    response it passes: requests can take turns, and can come with the same
    response object. *)
Definition invoke_seq (calls : list (loc * loc * Invocation)) (w : World C) : World C :=
  fold_left (fun w c => exec (invoke c.1.1 c.1.2 c.2) w) calls w.

Definition is_createScope (ev : event) : bool :=
  match ev with
  | EvCreateScope _ => true
  | _ => false
  end.

Definition is_getService (ev : event) : bool :=
  match ev with
  | EvGetService _ _ => true
  | _ => false
  end.

(** The call came with the response [res]. *)
Definition with_response (res : loc) (c : loc * loc * Invocation) : bool :=
  Pos.eqb c.1.2 res.

(** The call came with the request [req] and the response [res]. *)
Definition handled_with (req res : loc) (c : loc * loc * Invocation) : bool :=
  Pos.eqb c.1.1 req && Pos.eqb c.1.2 res.

End Requests.

(** ** A container and an application to run the code on *)

Module Reference.

(** A container with the registered instances by name; it records the scopes
    it was asked to end.  The scope of a context is an object of its own,
    named after the context. *)
Record Container : Type := MkContainer {
  registry : gmap string value;
  ended : list loc
}.

Definition ServiceNotFound (name : string) : value :=
  VError "ServiceNotFound" ("No service is registered as " +:+ name).

#[export] Instance ref_injector : Injector Container := {|
  createScope context st := (Normal (xI context), st);
  getService scope name st :=
    match registry (container st) !! name with
    | Some instance => (Normal instance, st)
    | None => (Abrupt (ServiceNotFound name), st)
    end;
  endScope scope st :=
    MkStore (heap st)
      (MkContainer (registry (container st)) (ended (container st) ++ [scope]))
|}.

(** The scope of a context is the same in every state, and the scopes of
    two contexts differ. *)
#[export] Instance ref_laws : InjectorLaws Container := {|
  scope_of := xI;
  scope_of_inj ctx1 ctx2 Heq :=
    f_equal (fun s => match s with xI c => c | _ => ctx1 end) Heq;
  createScope_scope_of _ _ := eq_refl
|}.

(** [this.track++] on the counter at [l]. *)
Definition increment (l : loc) (h : gmap loc object) : gmap loc object :=
  match h !! l with
  | Some o =>
      match obj_props o !! "track" with
      | Some (VNum n) =>
          <[l := Object (obj_code o) (<["track" := VNum (n + 1)]> (obj_props o))]> h
      | _ => h
      end
  | None => h
  end.

Definition reqA : loc := 2%positive.
Definition resA : loc := 4%positive.
Definition reqB : loc := 6%positive.
Definition resB : loc := 8%positive.
Definition counter : loc := 10%positive.
Definition middleware : loc := 12%positive.
Definition handle_method : loc := 14%positive.
Definition increment_handler : loc := 16%positive.
Definition settings : loc := 18%positive.
Definition thrower : loc := 20%positive.
Definition rejecter : loc := 22%positive.
Definition sleeper : loc := 24%positive.
Definition next : loc := 26%positive.

Definition boom : value := VError "Error" "boom".

(** The functions of the application:
    - 0: [(req, res, next) => { counter.increment(); next(); }], over the
      counter at [counter];
    - 1: [async handle(req, res, next) { this.counter.increment(); next(); }];
    - 2: [() => { throw new Error('boom'); }];
    - 3: [async () => { throw new Error('boom'); }];
    - 4: [() => new Promise(() => {})];
    - others, such as [next]: [() => {}]. *)
#[export] Instance ref_code : UserCode Container := {|
  fn_body code this args st :=
    match code with
    | 0 => (Normal VUndefined, MkStore (increment counter (heap st)) (container st))
    | 1 =>
        match get_prop (heap st) this "counter" with
        | Normal (VRef c) =>
            (Normal (VFulfilled VUndefined),
             MkStore (increment c (heap st)) (container st))
        | Normal _ =>
            (Normal (VRejected (TypeError "this.counter.increment is not a function")), st)
        | Abrupt e => (Normal (VRejected e), st)
        end
    | 2 => (Abrupt boom, st)
    | 3 => (Normal (VRejected boom), st)
    | 4 => (Normal VPending, st)
    | _ => (Normal VUndefined, st)
    end
|}.

Definition ref_heap : gmap loc object :=
  list_to_map
    [ (reqA, Object None ∅); (resA, Object None ∅);
      (reqB, Object None ∅); (resB, Object None ∅);
      (counter, Object None {[ "track" := VNum 0 ]});
      (middleware,
        Object None (<["counter" := VRef counter]> {[ "handle" := VRef handle_method ]}));
      (handle_method, Object (Some 1) ∅);
      (increment_handler, Object (Some 0) ∅);
      (settings, Object None {[ "port" := VNum 8080 ]});
      (thrower, Object (Some 2) ∅);
      (rejecter, Object (Some 3) ∅);
      (sleeper, Object (Some 4) ∅);
      (next, Object (Some 5) ∅) ].

Definition ref_registry : gmap string value :=
  list_to_map
    [ ("IncrementingMiddleware", VRef middleware);
      ("incrementHandler", VRef increment_handler);
      ("settings", VRef settings);
      ("port", VNum 8080);
      ("nothing", VNull);
      ("thrower", VRef thrower);
      ("rejecter", VRef rejecter);
      ("sleeper", VRef sleeper) ].

(** A fresh world: nothing listens and nothing has happened. *)
Definition w0 : World Container :=
  MkWorld (MkStore ref_heap (MkContainer ref_registry [])) ∅ [].

(** The value of the counter. *)
Definition track (w : World Container) : value :=
  default VUndefined (heap (store w) !! counter ≫= fun o => obj_props o !! "track").

End Reference.

(** A container that creates no scope: [createScope] throws. *)
Module Closed.

Definition closed : value := VError "Error" "the injector is closed".

#[export] Instance closed_injector : Injector unit := {|
  createScope context st := (Abrupt closed, st);
  getService scope name st := (Abrupt (Reference.ServiceNotFound name), st);
  endScope scope st := st
|}.

#[export] Instance closed_code : UserCode unit := {|
  fn_body code this args st := (Normal VUndefined, st)
|}.

Definition w_closed : World unit := MkWorld (MkStore ∅ tt) ∅ [].

End Closed.

(** The reference world with one more service, [both]: a function,
    [(req, res, next) => { counter.increment(); }], that also has a member
    [handle], the method of [IncrementingMiddleware], and a member [counter]. *)
Module Shapes.
Import Reference.

Definition both : loc := 28%positive.

Definition w_both : World Container :=
  MkWorld
    (MkStore
       (<[both := Object (Some 0)
                    (<["counter" := VRef counter]> {[ "handle" := VRef handle_method ]})]>
          ref_heap)
       (MkContainer (<["both" := VRef both]> ref_registry) []))
    ∅ [].

End Shapes.

(** * Properties *)

Section Facts.
Context {C : Type} `{Injector C} `{UserCode C}.

Implicit Types (w : World C) (st : Store C) (f this v e : value)
  (args : list value) (req res scoped : loc) (name : string).

(** ** Steps *)

Create HintDb steps.
#[local] Hint Unfold injector_createScope response_on scope_getService
  js_typeof js_get bind trace lift resolved_world listeners_of : steps.

(** Runs the code up to the answer of [getService], given what the container
    answers to [createScope] and [getService]. *)
Ltac run_binding Hc Hg :=
  autounfold with steps; simpl;
  rewrite Hc; simpl; rewrite Hg; simpl;
  rewrite <- ?app_assoc; simpl.

Lemma call_callee f this args w :
  call f this args w =
    match callee (heap (store w)) f this with
    | Some (code, t) =>
        match fn_body code t args (store w) with
        | (Normal v, st) =>
            (Ok v, MkWorld st (listeners w) (log w ++ [EvCall code t args]))
        | (Abrupt e, st) =>
            (Throw e, MkWorld st (listeners w) (log w ++ [EvCall code t args]))
        end
    | None => (Throw not_a_function, w)
    end.
Proof.
  revert this.
  induction f as [| | | | |l|target IHt bthis _| | | |]; intros this; simpl;
    try reflexivity.
  - destruct (heap (store w) !! l ≫= obj_code) as [code|]; [|reflexivity].
    unfold bind, trace, lift; simpl.
    destruct (fn_body code this args (store w)) as [[v|e] st]; reflexivity.
  - apply IHt.
Qed.

Lemma getHandler_createScope_throws name req res w e st :
  createScope req (store w) = (Abrupt e, st) ->
  getHandler name req res w =
    (Throw e, MkWorld st (listeners w) (log w ++ [EvCreateScope req])).
Proof.
  intros Hc. unfold getHandler, injector_createScope, bind, trace, lift; simpl.
  rewrite Hc. reflexivity.
Qed.

Lemma getHandler_getService_throws name req res w scoped st1 e st2 :
  createScope req (store w) = (Normal scoped, st1) ->
  getService scoped name st1 = (Abrupt e, st2) ->
  getHandler name req res w = (Throw e, resolved_world w req res scoped name st2).
Proof.
  intros Hc Hg. unfold getHandler. run_binding Hc Hg. reflexivity.
Qed.

Lemma getHandler_resolved name req res w scoped st1 v st2 :
  createScope req (store w) = (Normal scoped, st1) ->
  getService scoped name st1 = (Normal v, st2) ->
  getHandler name req res w =
    (classify (heap st2) name v, resolved_world w req res scoped name st2).
Proof.
  intros Hc Hg. unfold getHandler, classify. run_binding Hc Hg.
  destruct (String.eqb (typeof (heap st2) v) "function"); [reflexivity|].
  cbn [store heap].
  destruct (get_prop (heap st2) v "handle") as [handle|e']; [|reflexivity].
  cbn [store heap].
  destruct (String.eqb (typeof (heap st2) handle) "function"); reflexivity.
Qed.

(** An async function whose body awaits one call and ends. *)
Lemma async_await m w :
  async (let* _ := await m in ret tt) w = (Ok (awaited (eval m w)), exec m w).
Proof.
  unfold async, await, bind, eval, exec, ret.
  destruct (m w) as [[v|e|] w']; simpl; try reflexivity.
  destruct v; reflexivity.
Qed.

Lemma async_bind_ok {A} (m : M C A) (k : A -> M C unit) w a w' :
  m w = (Ok a, w') -> async (let* x := m in k x) w = async (k a) w'.
Proof. intros Hm. unfold async, bind. rewrite Hm. reflexivity. Qed.

Lemma async_bind_throw {A} (m : M C A) (k : A -> M C unit) w e w' :
  m w = (Throw e, w') -> async (let* x := m in k x) w = (Ok (VRejected e), w').
Proof. intros Hm. unfold async, bind. rewrite Hm. reflexivity. Qed.

Lemma toInjectedHandler_resolved name req res next w h w1 :
  getHandler name req res w = (Ok h, w1) ->
  toInjectedHandler name req res next w =
    (Ok (awaited (eval (call h VUndefined [VRef req; VRef res; next]) w1)),
     exec (call h VUndefined [VRef req; VRef res; next]) w1).
Proof.
  intros Hg. unfold toInjectedHandler.
  rewrite (async_bind_ok _ _ _ _ _ Hg). apply async_await.
Qed.

Lemma toInjectedErrorHandler_resolved name err req res next w h w1 :
  getHandler name req res w = (Ok h, w1) ->
  toInjectedErrorHandler name err req res next w =
    (Ok (awaited (eval (call h VUndefined [err; VRef req; VRef res; next]) w1)),
     exec (call h VUndefined [err; VRef req; VRef res; next]) w1).
Proof.
  intros Hg. unfold toInjectedErrorHandler.
  rewrite (async_bind_ok _ _ _ _ _ Hg). apply async_await.
Qed.

Lemma toInjectedHandler_unresolved name req res next w e w1 :
  getHandler name req res w = (Throw e, w1) ->
  toInjectedHandler name req res next w = (Ok (VRejected e), w1).
Proof. intros Hg. unfold toInjectedHandler. apply (async_bind_throw _ _ _ _ _ Hg). Qed.

Lemma toInjectedErrorHandler_unresolved name err req res next w e w1 :
  getHandler name req res w = (Throw e, w1) ->
  toInjectedErrorHandler name err req res next w = (Ok (VRejected e), w1).
Proof.
  intros Hg. unfold toInjectedErrorHandler. apply (async_bind_throw _ _ _ _ _ Hg).
Qed.

Lemma toInjectedMiddleware_createScope_throws D req res next w e st :
  createScope req (store w) = (Abrupt e, st) ->
  toInjectedMiddleware D req res next w =
    (Ok (VRejected e), MkWorld st (listeners w) (log w ++ [EvCreateScope req])).
Proof.
  intros Hc. unfold toInjectedMiddleware, async, injector_createScope, bind, trace, lift;
    simpl.
  rewrite Hc. reflexivity.
Qed.

Lemma toInjectedMiddleware_getService_throws D req res next w scoped st1 e st2 :
  createScope req (store w) = (Normal scoped, st1) ->
  getService scoped (serviceName D) st1 = (Abrupt e, st2) ->
  toInjectedMiddleware D req res next w =
    (Ok (VRejected e), resolved_world w req res scoped (serviceName D) st2).
Proof.
  intros Hc Hg. unfold toInjectedMiddleware, async. run_binding Hc Hg. reflexivity.
Qed.

Lemma toInjectedMiddleware_resolved D req res next w scoped st1 v st2 :
  createScope req (store w) = (Normal scoped, st1) ->
  getService scoped (serviceName D) st1 = (Normal v, st2) ->
  let w2 := resolved_world w req res scoped (serviceName D) st2 in
  toInjectedMiddleware D req res next w =
    (Ok (awaited (eval (call_method v "handle" [VRef req; VRef res; next]) w2)),
     exec (call_method v "handle" [VRef req; VRef res; next]) w2).
Proof.
  intros Hc Hg w2.
  rewrite <- async_await.
  unfold toInjectedMiddleware, async, w2. run_binding Hc Hg. reflexivity.
Qed.

Lemma call_method_get o m args w :
  call_method o m args w =
    match get_prop (heap (store w)) o m with
    | Normal f => call f o args w
    | Abrupt e => (Throw e, w)
    end.
Proof.
  unfold call_method, js_get, bind.
  destruct (get_prop (heap (store w)) o m); reflexivity.
Qed.

(** ** What a step leaves alone *)

(** A call of a function adds at most its own entry to the trace, and
    registers no listener. *)
Lemma call_frame f this args w :
  exists E,
    listeners (exec (call f this args) w) = listeners w /\
    log (exec (call f this args) w) = log w ++ E /\
    Forall (fun ev => is_call ev = true) E.
Proof.
  unfold exec. rewrite call_callee.
  destruct (callee (heap (store w)) f this) as [[code t]|].
  - exists [EvCall code t args].
    destruct (fn_body code t args (store w)) as [[v|e] st]; simpl;
      repeat split; auto.
  - exists []. simpl. rewrite app_nil_r. repeat split; auto.
Qed.

Lemma call_method_frame o m args w :
  exists E,
    listeners (exec (call_method o m args) w) = listeners w /\
    log (exec (call_method o m args) w) = log w ++ E /\
    Forall (fun ev => is_call ev = true) E.
Proof.
  unfold exec. rewrite call_method_get.
  destruct (get_prop (heap (store w)) o m) as [f|e].
  - apply call_frame.
  - exists []. simpl. rewrite app_nil_r. repeat split; auto.
Qed.

Lemma events_of_log {A} (m : M C A) w E :
  log (exec m w) = log w ++ E -> events_of m w = E.
Proof. intros Hl. unfold events_of. rewrite Hl. apply drop_app_length. Qed.

Lemma classify_not_suspend h name v : classify h name v <> Suspend.
Proof.
  unfold classify.
  destruct (String.eqb (typeof h v) "function"); [discriminate|].
  destruct (get_prop h v "handle") as [handle|e]; [|discriminate].
  destruct (String.eqb (typeof h handle) "function"); discriminate.
Qed.

Lemma listeners_of_resolved w req res scoped name st :
  listeners_of (resolved_world w req res scoped name st) res "finish" =
    listeners_of w res "finish" ++ [Teardown scoped].
Proof. unfold listeners_of, resolved_world; simpl. by rewrite lookup_insert_eq. Qed.

(** An invocation that gets its scope registers the teardown, asks for the
    service, and after that adds nothing but the call of the handler. *)
Lemma invoke_frame i req res w scoped st1 :
  createScope req (store w) = (Normal scoped, st1) ->
  exists E,
    listeners (exec (invoke req res i) w) =
      <[(res, "finish") := listeners_of w res "finish" ++ [Teardown scoped]]> (listeners w) /\
    log (exec (invoke req res i) w) =
      log w ++ [EvCreateScope req; EvOn res "finish" (Teardown scoped);
                EvGetService scoped (service_of i)] ++ E /\
    Forall (fun ev => is_call ev = true) E.
Proof.
  intros Hc.
  assert (Hnil : exists E,
    listeners (resolved_world w req res scoped (service_of i)
                 (snd (getService scoped (service_of i) st1))) =
      <[(res, "finish") := listeners_of w res "finish" ++ [Teardown scoped]]> (listeners w) /\
    log (resolved_world w req res scoped (service_of i)
           (snd (getService scoped (service_of i) st1))) =
      log w ++ [EvCreateScope req; EvOn res "finish" (Teardown scoped);
                EvGetService scoped (service_of i)] ++ E /\
    Forall (fun ev => is_call ev = true) E).
  { exists []. simpl. repeat split; auto. }
  assert (Hcall : forall f this args, exists E,
    listeners (exec (call f this args)
                 (resolved_world w req res scoped (service_of i)
                    (snd (getService scoped (service_of i) st1)))) =
      <[(res, "finish") := listeners_of w res "finish" ++ [Teardown scoped]]> (listeners w) /\
    log (exec (call f this args)
           (resolved_world w req res scoped (service_of i)
              (snd (getService scoped (service_of i) st1)))) =
      log w ++ [EvCreateScope req; EvOn res "finish" (Teardown scoped);
                EvGetService scoped (service_of i)] ++ E /\
    Forall (fun ev => is_call ev = true) E).
  { intros f this args.
    destruct (call_frame f this args
                (resolved_world w req res scoped (service_of i)
                   (snd (getService scoped (service_of i) st1)))) as (E & Hl & Hlog & HE).
    exists E. rewrite Hl, Hlog. simpl. rewrite <- app_assoc. auto. }
  destruct (getService scoped (service_of i) st1) as [[v|e] st2] eqn:Hg; simpl in *.
  - destruct i as [name next|name err next|D next]; simpl in *.
    + pose proof (getHandler_resolved name req res w scoped st1 v st2 Hc Hg) as Hh.
      destruct (classify (heap st2) name v) as [h|e|] eqn:Hk.
      * unfold exec. rewrite (toInjectedHandler_resolved _ _ _ _ _ _ _ Hh). apply Hcall.
      * unfold exec. rewrite (toInjectedHandler_unresolved _ _ _ _ _ _ _ Hh). apply Hnil.
      * by apply classify_not_suspend in Hk.
    + pose proof (getHandler_resolved name req res w scoped st1 v st2 Hc Hg) as Hh.
      destruct (classify (heap st2) name v) as [h|e|] eqn:Hk.
      * unfold exec. rewrite (toInjectedErrorHandler_resolved _ _ _ _ _ _ _ _ Hh).
        apply Hcall.
      * unfold exec. rewrite (toInjectedErrorHandler_unresolved _ _ _ _ _ _ _ _ Hh).
        apply Hnil.
      * by apply classify_not_suspend in Hk.
    + unfold exec. rewrite (toInjectedMiddleware_resolved _ _ _ _ _ _ _ _ _ Hc Hg).
      cbn [snd]. unfold exec. rewrite call_method_get. cbn [store resolved_world].
      destruct (get_prop (heap st2) v "handle") as [f|e].
      * apply (Hcall f v).
      * apply Hnil.
  - destruct i as [name next|name err next|D next]; simpl in *; unfold exec.
    + rewrite (toInjectedHandler_unresolved _ _ _ _ _ _ _
                 (getHandler_getService_throws _ _ _ _ _ _ _ _ Hc Hg)).
      apply Hnil.
    + rewrite (toInjectedErrorHandler_unresolved _ _ _ _ _ _ _ _
                 (getHandler_getService_throws _ _ _ _ _ _ _ _ Hc Hg)).
      apply Hnil.
    + rewrite (toInjectedMiddleware_getService_throws _ _ _ _ _ _ _ _ _ Hc Hg).
      apply Hnil.
Qed.

(** An invocation that gets no scope ends there. *)
Lemma invoke_createScope_throws i req res w e st :
  createScope req (store w) = (Abrupt e, st) ->
  invoke req res i w =
    (Ok (VRejected e), MkWorld st (listeners w) (log w ++ [EvCreateScope req])).
Proof.
  intros Hc. destruct i as [name next|name err next|D next]; simpl.
  - apply toInjectedHandler_unresolved, getHandler_createScope_throws, Hc.
  - apply toInjectedErrorHandler_unresolved, getHandler_createScope_throws, Hc.
  - apply toInjectedMiddleware_createScope_throws, Hc.
Qed.

(** ** The listeners at ['finish'] *)

(** Teardown listeners never throw: all of them run, in order. *)
Lemma call_listeners_teardowns this (ss : list loc) w :
  call_listeners this (map Teardown ss) w =
    (Ok tt,
     MkWorld (fold_left (fun st s => endScope s st) ss (store w))
       (listeners w) (log w ++ map EvEndScope ss)).
Proof.
  revert w. induction ss as [|s ss IH]; intros w; simpl.
  - rewrite app_nil_r. by destruct w.
  - unfold bind, scope_endScope, trace, lift; simpl.
    rewrite IH; simpl. by rewrite <- app_assoc.
Qed.

Lemma teardowns_map (ls : list listener) :
  Forall (fun l => is_teardown l = true) ls -> exists ss, ls = map Teardown ss.
Proof.
  induction 1 as [|l ls Hl _ [ss ->]].
  - by exists [].
  - destruct l as [s|f]; [|discriminate]. by exists (s :: ss).
Qed.

Lemma endScope_calls_app scope (E1 E2 : list event) :
  endScope_calls scope (E1 ++ E2) = endScope_calls scope E1 + endScope_calls scope E2.
Proof. unfold endScope_calls. by rewrite List.filter_app, length_app. Qed.

Lemma endScope_calls_replicate scope n :
  endScope_calls scope (replicate n (EvEndScope scope)) = n.
Proof.
  unfold endScope_calls. induction n as [|n IH]; simpl; [done|].
  rewrite Pos.eqb_refl. simpl. by rewrite IH.
Qed.

Lemma endScope_calls_no_endScope scope (E : list event) :
  Forall (fun ev => is_endScope_event ev = false) E -> endScope_calls scope E = 0.
Proof.
  unfold endScope_calls. induction 1 as [|ev E Hev _ IH]; simpl; [done|].
  destruct ev; try done.
Qed.

Lemma invoke_log i req res w :
  exists E,
    log (exec (invoke req res i) w) = log w ++ E /\
    Forall (fun ev => is_endScope_event ev = false) E.
Proof.
  destruct (createScope req (store w)) as [[scoped|e] st1] eqn:Hc.
  - destruct (invoke_frame i req res w scoped st1 Hc) as (E & _ & Hlog & HE).
    eexists. split; [exact Hlog|].
    repeat (constructor; [reflexivity|]).
    eapply Forall_impl; [exact HE|]. intros ev Hev. by destruct ev.
  - unfold exec. rewrite (invoke_createScope_throws i req res w e st1 Hc). simpl.
    eexists. split; [reflexivity|]. by repeat constructor.
Qed.

Lemma invoke_all_cons req res i calls w :
  invoke_all req res (i :: calls) w = invoke_all req res calls (exec (invoke req res i) w).
Proof. reflexivity. Qed.

Lemma invoke_all_log req res calls w :
  exists E,
    log (invoke_all req res calls w) = log w ++ E /\
    Forall (fun ev => is_endScope_event ev = false) E.
Proof.
  revert w. induction calls as [|i calls IH]; intros w.
  - exists []. simpl. by rewrite app_nil_r.
  - destruct (IH (exec (invoke req res i) w)) as (E2 & Hlog2 & HE2).
    destruct (invoke_log i req res w) as (E1 & Hlog1 & HE1).
    exists (E1 ++ E2). split.
    + rewrite invoke_all_cons, Hlog2, Hlog1. by rewrite app_assoc.
    + by apply Forall_app.
Qed.

Lemma typeof_function_eqb h v : typeof h v = "function" ->
  String.eqb (typeof h v) "function" = true.
Proof. intros ->. reflexivity. Qed.

Lemma typeof_other_eqb h v : typeof h v <> "function" ->
  String.eqb (typeof h v) "function" = false.
Proof. intros Hn. by apply String.eqb_neq. Qed.

Lemma classify_callable h name v :
  typeof h v = "function" -> classify h name v = Ok v.
Proof. intros Ht. unfold classify. by rewrite (typeof_function_eqb _ _ Ht). Qed.

Lemma classify_handle h name v handle :
  typeof h v <> "function" ->
  get_prop h v "handle" = Normal handle ->
  typeof h handle = "function" ->
  classify h name v = Ok (VBound handle v).
Proof.
  intros Hv Hg Hh. unfold classify.
  by rewrite (typeof_other_eqb _ _ Hv), Hg, (typeof_function_eqb _ _ Hh).
Qed.

Lemma classify_invalid h name v handle :
  typeof h v <> "function" ->
  get_prop h v "handle" = Normal handle ->
  typeof h handle <> "function" ->
  classify h name v = Throw (VError "Error" (invalid_middleware_message name)).
Proof.
  intros Hv Hg Hh. unfold classify.
  by rewrite (typeof_other_eqb _ _ Hv), Hg, (typeof_other_eqb _ _ Hh).
Qed.

(** X1. An instance that is an object without a callable [handle], or a
    primitive, is reported with the message that quotes the name it was
    registered under. *)
Lemma invalid_shape_reported name req res w scoped st1 instance st2 handle :
  createScope req (store w) = (Normal scoped, st1) ->
  getService scoped name st1 = (Normal instance, st2) ->
  typeof (heap st2) instance <> "function" ->
  get_prop (heap st2) instance "handle" = Normal handle ->
  typeof (heap st2) handle <> "function" ->
  getHandler name req res w =
    (Throw (VError "Error" (invalid_middleware_message name)),
     resolved_world w req res scoped name st2) /\
  exists before after,
    invalid_middleware_message name = before +:+ name +:+ after.
Proof.
  intros Hc Hg Hv Hp Hh. split.
  - rewrite (getHandler_resolved _ _ _ _ _ _ _ _ Hc Hg).
    by rewrite (classify_invalid _ _ _ _ Hv Hp Hh).
  - exists ("The instance registered to " +:+ double_quote).
    exists (double_quote +:+
      " is not a valid middleware. It must either be a handler function or contain a handle method.").
    reflexivity.
Qed.

(** X2. An instance that is [null] or [undefined] is not: reading [handle]
    of it throws a [TypeError] first, after the teardown was registered. *)
Lemma nullish_instance_throws name req res w scoped st1 instance st2 :
  createScope req (store w) = (Normal scoped, st1) ->
  getService scoped name st1 = (Normal instance, st2) ->
  instance = VNull \/ instance = VUndefined ->
  exists message,
    getHandler name req res w =
      (Throw (TypeError message), resolved_world w req res scoped name st2) /\
    TypeError message <> VError "Error" (invalid_middleware_message name).
Proof.
  intros Hc Hg Hnull.
  rewrite (getHandler_resolved _ _ _ _ _ _ _ _ Hc Hg).
  destruct Hnull as [-> | ->]; eexists; (split; [reflexivity|discriminate]).
Qed.

(** X5. The error adapter fails as the standard one does: whatever makes it
    fail, its promise rejects with that same error. *)
Lemma error_adapter_errors_propagate name err req res next w e w' :
  fails name req res [err; VRef req; VRef res; next] w e w' ->
  toInjectedErrorHandler name err req res next w = (Ok (VRejected e), w').
Proof.
  intros [e0 st Hc|scoped st1 e0 st2 Hc Hg|h w1 e0 w2 Hh Hcall|h w1 e0 w2 Hh Hcall].
  - apply toInjectedErrorHandler_unresolved. by apply getHandler_createScope_throws.
  - apply toInjectedErrorHandler_unresolved. by eapply getHandler_getService_throws.
  - rewrite (toInjectedErrorHandler_resolved _ _ _ _ _ _ _ _ Hh).
    unfold eval, exec. by rewrite Hcall.
  - rewrite (toInjectedErrorHandler_resolved _ _ _ _ _ _ _ _ Hh).
    unfold eval, exec. by rewrite Hcall.
Qed.

(** The listeners of an emission run one after the other: those of a list
    that ends well are followed by the next ones. *)
Lemma call_listeners_app this (ls1 ls2 : list listener) w :
  call_listeners this (ls1 ++ ls2) w =
    (let* _ := call_listeners this ls1 in call_listeners this ls2) w.
Proof.
  revert w. induction ls1 as [|l ls1 IH]; intros w; [reflexivity|].
  simpl. unfold bind.
  destruct (call_listener this l w) as [[v|e|] w']; [|reflexivity..].
  rewrite IH. reflexivity.
Qed.

(** Listeners register no listener, and only add to the trace. *)
Lemma call_listeners_frame this (ls : list listener) w :
  exists E,
    listeners (exec (call_listeners this ls) w) = listeners w /\
    log (exec (call_listeners this ls) w) = log w ++ E.
Proof.
  revert w. induction ls as [|l ls IH]; intros w.
  - exists []. simpl. by rewrite app_nil_r.
  - assert (Hl : exists E1,
      listeners (exec (call_listener this l) w) = listeners w /\
      log (exec (call_listener this l) w) = log w ++ E1).
    { destruct l as [scoped|f]; simpl.
      - by exists [EvEndScope scoped].
      - destruct (call_frame f this [] w) as (E1 & Hl1 & Hlog1 & _). by exists E1. }
    destruct Hl as (E1 & Hl1 & Hlog1).
    unfold exec in *. simpl. unfold bind.
    destruct (call_listener this l w) as [[v|e|] w'] eqn:Hcl; simpl in *.
    + destruct (IH w') as (E2 & Hl2 & Hlog2).
      exists (E1 ++ E2). rewrite Hl2, Hlog2, Hl1, Hlog1. by rewrite app_assoc.
    + by exists E1.
    + by exists E1.
Qed.

(** When the listeners registered before do not throw, the listeners
    registered after them run, in the world the first ones leave. *)
Lemma emit_after_earlier this (earlier : list listener) (ss : list loc) w :
  eval (call_listeners this earlier) w = Ok tt ->
  eval (call_listeners this (earlier ++ map Teardown ss)) w = Ok tt /\
  drop (length (log w)) (log (exec (call_listeners this (earlier ++ map Teardown ss)) w)) =
    drop (length (log w)) (log (exec (call_listeners this earlier) w)) ++ map EvEndScope ss.
Proof.
  intros Hok.
  destruct (call_listeners_frame this earlier w) as (E & _ & Hlog).
  unfold eval, exec in *. rewrite call_listeners_app. unfold bind.
  destruct (call_listeners this earlier w) as [[[]|e|] w1]; simpl in *; try discriminate.
  rewrite call_listeners_teardowns. simpl. split; [reflexivity|].
  rewrite Hlog, <- app_assoc, !drop_app_length. reflexivity.
Qed.

(** ** The claims on one invocation *)

(** C2. When the instance the scope gives is a function, [getHandler] returns
    that very value, and the wrapped handler of [toInjectedHandler] does what
    a direct call [instance(req, res, next)] does at that point: it leaves
    the world the direct call leaves, and its promise settles as the direct
    call ends (fulfilled when it returns or fulfils, rejected with the same
    reason when it throws or rejects, pending when it stays pending); when
    the function returns a [Promise<void>], as a [Handler] does, the wrapped
    handler returns that same promise. *)
Theorem callable_instance_is_the_handler
  name req res next w scoped st1 instance st2 :
  createScope req (store w) = (Normal scoped, st1) ->
  getService scoped name st1 = (Normal instance, st2) ->
  typeof (heap st2) instance = "function" ->
  let w2 := resolved_world w req res scoped name st2 in
  let direct := call instance VUndefined [VRef req; VRef res; next] in
  getHandler name req res w = (Ok instance, w2) /\
  toInjectedHandler name req res next w = (Ok (awaited (eval direct w2)), exec direct w2) /\
  (forall p, eval direct w2 = Ok p -> promise_of_void p ->
     toInjectedHandler name req res next w = direct w2).
Proof.
  intros Hc Hg Ht w2 direct.
  assert (Hh : getHandler name req res w = (Ok instance, w2)).
  { rewrite (getHandler_resolved _ _ _ _ _ _ _ _ Hc Hg).
    by rewrite (classify_callable _ _ _ Ht). }
  pose proof (toInjectedHandler_resolved name req res next w instance w2 Hh) as Hrun.
  split; [exact Hh|]. split; [exact Hrun|].
  intros p Hp Hvoid. subst direct. rewrite Hrun, Hp. unfold exec. unfold eval in Hp.
  destruct (call instance VUndefined [VRef req; VRef res; next] w2) as [r w3].
  simpl in *. subst r.
  by destruct Hvoid as [-> | [[e ->] | ->]].
Qed.

(** C3. When the instance is no function but has a callable member [handle],
    the handler [getHandler] returns runs [handle] with [this] bound to the
    instance, whatever [this] it is called with and in every world: it is
    the method call [instance.handle(...)], and a second call starts from
    the world the first one left, as two method calls on the instance do. *)
Theorem handle_method_is_bound_to_instance
  name req res w scoped st1 instance st2 handle :
  createScope req (store w) = (Normal scoped, st1) ->
  getService scoped name st1 = (Normal instance, st2) ->
  typeof (heap st2) instance <> "function" ->
  get_prop (heap st2) instance "handle" = Normal handle ->
  typeof (heap st2) handle = "function" ->
  exists normalized,
    getHandler name req res w =
      (Ok normalized, resolved_world w req res scoped name st2) /\
    (forall this args w',
       call normalized this args w' = call handle instance args w') /\
    (forall this args w',
       get_prop (heap (store w')) instance "handle" = Normal handle ->
       call normalized this args w' = call_method instance "handle" args w') /\
    (forall this args1 args2 w',
       (let* _ := call normalized this args1 in call normalized this args2) w' =
       (let* _ := call handle instance args1 in call handle instance args2) w').
Proof.
  intros Hc Hg Hv Hp Hh. exists (VBound handle instance). split; [|split; [|split]].
  - rewrite (getHandler_resolved _ _ _ _ _ _ _ _ Hc Hg).
    by rewrite (classify_handle _ _ _ _ Hv Hp Hh).
  - reflexivity.
  - intros this args w' Hp'. rewrite call_method_get, Hp'. reflexivity.
  - reflexivity.
Qed.

(** C6, as amended.  In every invocation of a handler the code produced,
    once the scope is obtained the first thing is the registration of its
    teardown on ['finish'] of the response; the service is asked for after
    that, and the only events after that are calls of the handler; when no
    scope is obtained nothing else happens.  So wherever a function of the
    application is called, a teardown was registered on the response before.
    No invocation, and no sequence of invocations for a request, calls
    [endScope]: that is left to the listeners, which run when ['finish'] is
    emitted, whenever that is. *)
Theorem teardown_registered_before_handler_runs i req res w :
  (forall scoped st1,
     createScope req (store w) = (Normal scoped, st1) ->
     exists E,
       events_of (invoke req res i) w =
         EvCreateScope req :: EvOn res "finish" (Teardown scoped) ::
         EvGetService scoped (service_of i) :: E /\
       Forall (fun ev => is_call ev = true) E /\
       last (listeners_of (exec (invoke req res i) w) res "finish") =
         Some (Teardown scoped)) /\
  (forall e st,
     createScope req (store w) = (Abrupt e, st) ->
     events_of (invoke req res i) w = [EvCreateScope req]) /\
  (forall before code this args after,
     events_of (invoke req res i) w = before ++ EvCall code this args :: after ->
     exists scoped, In (EvOn res "finish" (Teardown scoped)) before) /\
  (forall calls scope,
     endScope_calls scope
       (drop (length (log w)) (log (invoke_all req res calls w))) = 0).
Proof.
  assert (Hok : forall scoped st1,
     createScope req (store w) = (Normal scoped, st1) ->
     exists E,
       events_of (invoke req res i) w =
         EvCreateScope req :: EvOn res "finish" (Teardown scoped) ::
         EvGetService scoped (service_of i) :: E /\
       Forall (fun ev => is_call ev = true) E /\
       last (listeners_of (exec (invoke req res i) w) res "finish") =
         Some (Teardown scoped)).
  { intros scoped st1 Hc.
    destruct (invoke_frame i req res w scoped st1 Hc) as (E & Hl & Hlog & HE).
    exists E. split; [|split].
    - by apply events_of_log.
    - exact HE.
    - unfold listeners_of. rewrite Hl, lookup_insert_eq. simpl. apply last_snoc. }
  assert (Hko : forall e st,
     createScope req (store w) = (Abrupt e, st) ->
     events_of (invoke req res i) w = [EvCreateScope req]).
  { intros e st Hc. apply events_of_log. unfold exec.
    by rewrite (invoke_createScope_throws i req res w e st Hc). }
  split; [exact Hok|]. split; [exact Hko|]. split.
  - intros before code this args after Hev.
    destruct (createScope req (store w)) as [[scoped|e] st1] eqn:Hc.
    + destruct (Hok scoped st1 eq_refl) as (E & HE & _ & _). rewrite HE in Hev.
      exists scoped.
      destruct before as [|b1 [|b2 [|b3 before]]]; simpl in Hev; try discriminate.
      injection Hev as _ <- _. simpl. auto.
    + rewrite (Hko e st1 eq_refl) in Hev.
      destruct before as [|b1 [|b2 before]]; discriminate.
  - intros calls scope.
    destruct (invoke_all_log req res calls w) as (E & Hlog & HE).
    rewrite Hlog, drop_app_length. by apply endScope_calls_no_endScope.
Qed.

(** C7. Once [getHandler] has given the handler [h], the standard adapter
    calls [h] with the three arguments it received itself and its promise
    settles when and as that call does; the error adapter calls [h] with the
    error it received in front of those three.  When [h] runs the code of a
    function of the application, that code gets just these arguments. *)
Theorem adapters_forward_arguments_and_await name err req res next w h w1 :
  getHandler name req res w = (Ok h, w1) ->
  let args3 := [VRef req; VRef res; next] in
  let args4 := [err; VRef req; VRef res; next] in
  toInjectedHandler name req res next w =
    (Ok (awaited (eval (call h VUndefined args3) w1)), exec (call h VUndefined args3) w1) /\
  toInjectedErrorHandler name err req res next w =
    (Ok (awaited (eval (call h VUndefined args4) w1)), exec (call h VUndefined args4) w1) /\
  (forall code this,
     callee (heap (store w1)) h VUndefined = Some (code, this) ->
     exec (toInjectedHandler name req res next) w =
       MkWorld (snd (fn_body code this args3 (store w1))) (listeners w1)
         (log w1 ++ [EvCall code this args3]) /\
     exec (toInjectedErrorHandler name err req res next) w =
       MkWorld (snd (fn_body code this args4 (store w1))) (listeners w1)
         (log w1 ++ [EvCall code this args4])).
Proof.
  intros Hh args3 args4.
  pose proof (toInjectedHandler_resolved name req res next w h w1 Hh) as H3.
  pose proof (toInjectedErrorHandler_resolved name err req res next w h w1 Hh) as H4.
  split; [exact H3|]. split; [exact H4|].
  intros code this Hcallee. unfold exec. rewrite H3, H4. cbn [snd].
  unfold exec. rewrite !call_callee, Hcallee.
  subst args3 args4.
  destruct (fn_body code this [VRef req; VRef res; next] (store w1)) as [[v3|e3] st3];
    destruct (fn_body code this [err; VRef req; VRef res; next] (store w1))
      as [[v4|e4] st4]; by split.
Qed.

(** C8. Whatever makes the wrapped handler fail, an exception of the
    container when it is asked for the scope or the service, or an exception
    or a rejection of the handler itself, the promise of the wrapped handler
    rejects with that same error, in the world of the failure: nothing is
    caught and nothing is tried again. *)
Theorem errors_propagate_unchanged name req res next w e w' :
  fails name req res [VRef req; VRef res; next] w e w' ->
  toInjectedHandler name req res next w = (Ok (VRejected e), w').
Proof.
  intros [e0 st Hc|scoped st1 e0 st2 Hc Hg|h w1 e0 w2 Hh Hcall|h w1 e0 w2 Hh Hcall].
  - apply toInjectedHandler_unresolved. by apply getHandler_createScope_throws.
  - apply toInjectedHandler_unresolved. by eapply getHandler_getService_throws.
  - rewrite (toInjectedHandler_resolved _ _ _ _ _ _ _ Hh).
    unfold eval, exec. by rewrite Hcall.
  - rewrite (toInjectedHandler_resolved _ _ _ _ _ _ _ Hh).
    unfold eval, exec. by rewrite Hcall.
Qed.

(** C9, as amended.  For a service that is no function and has a callable
    member [handle], [toInjectedMiddleware] and [toInjectedHandler] give the
    same promise and leave the same world; the name looked up is the string
    itself, or the name of the class. *)
Theorem middleware_agrees_on_handle_objects
  D req res next w scoped st1 instance st2 handle :
  createScope req (store w) = (Normal scoped, st1) ->
  getService scoped (serviceName D) st1 = (Normal instance, st2) ->
  typeof (heap st2) instance <> "function" ->
  get_prop (heap st2) instance "handle" = Normal handle ->
  typeof (heap st2) handle = "function" ->
  toInjectedMiddleware D req res next w =
    toInjectedHandler (serviceName D) req res next w /\
  (forall name, serviceName (ByName name) = name) /\
  (forall type, serviceName (ByType type) = class_name type).
Proof.
  intros Hc Hg Hv Hp Hh. split; [|split; reflexivity].
  rewrite (toInjectedMiddleware_resolved _ _ _ _ _ _ _ _ _ Hc Hg). cbn zeta.
  assert (Hget : getHandler (serviceName D) req res w =
            (Ok (VBound handle instance),
             resolved_world w req res scoped (serviceName D) st2)).
  { rewrite (getHandler_resolved _ _ _ _ _ _ _ _ Hc Hg).
    by rewrite (classify_handle _ _ _ _ Hv Hp Hh). }
  rewrite (toInjectedHandler_resolved _ _ _ _ _ _ _ Hget).
  unfold eval, exec. rewrite call_method_get. cbn [store resolved_world].
  rewrite Hp. reflexivity.
Qed.

(** C10, as amended.  When the scope throws on [getService], the invocation
    ends with a promise rejected with that error, in a world where the scope
    has been asked for and its teardown listens, last, to ['finish'] of the
    response; when the listeners registered before it do not throw,
    emitting ['finish'] then calls [endScope] on the scope. *)
Theorem resolution_failure_keeps_teardown i req res w scoped st1 e st2 :
  createScope req (store w) = (Normal scoped, st1) ->
  getService scoped (service_of i) st1 = (Abrupt e, st2) ->
  let w' := exec (invoke req res i) w in
  invoke req res i w =
    (Ok (VRejected e), resolved_world w req res scoped (service_of i) st2) /\
  listeners_of w' res "finish" = listeners_of w res "finish" ++ [Teardown scoped] /\
  (eval (call_listeners (VRef res) (listeners_of w res "finish")) w' = Ok tt ->
   eval (response_emit res "finish") w' = Ok tt /\
   last (events_of (response_emit res "finish") w') = Some (EvEndScope scoped)).
Proof.
  intros Hc Hg w'.
  assert (Hi : invoke req res i w =
            (Ok (VRejected e), resolved_world w req res scoped (service_of i) st2)).
  { destruct i as [name next|name err next|D next]; simpl in *.
    - apply toInjectedHandler_unresolved. by eapply getHandler_getService_throws.
    - apply toInjectedErrorHandler_unresolved. by eapply getHandler_getService_throws.
    - by eapply toInjectedMiddleware_getService_throws. }
  assert (Hw' : w' = resolved_world w req res scoped (service_of i) st2).
  { unfold w', exec. by rewrite Hi. }
  split; [exact Hi|]. rewrite Hw'.
  rewrite listeners_of_resolved. split; [reflexivity|].
  intros Hearlier.
  destruct (emit_after_earlier _ _ [scoped] _ Hearlier) as [Hok Hev].
  unfold response_emit, events_of, eval, exec in *.
  change (map Teardown [scoped]) with [Teardown scoped] in Hok, Hev.
  change (map EvEndScope [scoped]) with [EvEndScope scoped] in Hev.
  rewrite listeners_of_resolved. split; [exact Hok|].
  rewrite Hev. apply last_snoc.
Qed.

End Facts.

(** ** The claims on the scope of a request *)

Section Laws.
Context {C : Type} `{Injector C} `{UserCode C} `{!InjectorLaws C}.

Implicit Types (w : World C) (st : Store C) (req res : loc).

Lemma createScope_succeeds req st :
  createScope req st = (Normal (scope_of req), snd (createScope req st)).
Proof.
  pose proof (createScope_scope_of req st) as Hs.
  destruct (createScope req st) as [c st']; simpl in *. by rewrite Hs.
Qed.

Lemma invoke_events i req res w :
  exists E,
    events_of (invoke req res i) w =
      EvCreateScope req :: EvOn res "finish" (Teardown (scope_of req)) ::
      EvGetService (scope_of req) (service_of i) :: E /\
    Forall (fun ev => is_call ev = true) E.
Proof.
  destruct (invoke_frame i req res w _ _ (createScope_succeeds req (store w)))
    as (E & _ & Hlog & HE).
  exists E. split; [|exact HE]. by apply events_of_log.
Qed.

Lemma invoke_listeners i req res w :
  listeners_of (exec (invoke req res i) w) res "finish" =
    listeners_of w res "finish" ++ [Teardown (scope_of req)].
Proof.
  destruct (invoke_frame i req res w _ _ (createScope_succeeds req (store w)))
    as (E & Hl & _ & _).
  unfold listeners_of at 1. by rewrite Hl, lookup_insert_eq.
Qed.

Lemma invoke_all_listeners req res calls w :
  listeners_of (invoke_all req res calls w) res "finish" =
    listeners_of w res "finish" ++ replicate (length calls) (Teardown (scope_of req)).
Proof.
  revert w. induction calls as [|i calls IH]; intros w.
  - simpl. by rewrite app_nil_r.
  - rewrite invoke_all_cons, IH, invoke_listeners. simpl. by rewrite <- app_assoc.
Qed.

Lemma map_replicate {A B} (f : A -> B) n (x : A) :
  map f (replicate n x) = replicate n (f x).
Proof. induction n as [|n IH]; simpl; [done|]. by rewrite IH. Qed.

Lemma scopes_used_calls (E : list event) :
  Forall (fun ev => is_call ev = true) E -> scopes_used E = [].
Proof.
  induction 1 as [|ev E Hev _ IH]; simpl; [done|].
  destruct ev; try discriminate. exact IH.
Qed.

(** C1, as amended.  After the handlers of a request have been invoked,
    emitting ['finish'] on the response first runs the listeners that were
    there before, and, when none of these throws, then calls [endScope] on
    the scope of the request once for each invocation, and does nothing
    else: once when one handler was invoked, [n] times when [n] were. *)
Theorem teardown_once_per_invocation req res calls w :
  let finished := invoke_all req res calls w in
  let earlier := call_listeners (VRef res) (listeners_of w res "finish") in
  eval earlier finished = Ok tt ->
  events_of (response_emit res "finish") finished =
    events_of earlier finished ++ replicate (length calls) (EvEndScope (scope_of req)) /\
  endScope_calls (scope_of req) (events_of (response_emit res "finish") finished) =
    endScope_calls (scope_of req) (events_of earlier finished) + length calls.
Proof.
  intros finished earlier Hearlier.
  assert (Hev : events_of (response_emit res "finish") finished =
            events_of earlier finished ++
            replicate (length calls) (EvEndScope (scope_of req))).
  { destruct (emit_after_earlier _ _ (replicate (length calls) (scope_of req)) _ Hearlier)
      as [_ Hev].
    unfold events_of, exec at 1, response_emit, finished.
    rewrite invoke_all_listeners, <- (map_replicate Teardown).
    fold finished. unfold exec at 1 in Hev. rewrite Hev.
    by rewrite (map_replicate EvEndScope). }
  split; [exact Hev|]. rewrite Hev, endScope_calls_app. f_equal.
  apply endScope_calls_replicate.
Qed.

(** C5. An invocation asks the injector for the scope of the request it is
    given, of nothing else, and uses the scope it gets both for the teardown
    and for the lookup; so two invocations use the same scope when they are
    given the same request, and different scopes when they are given
    different requests. *)
Theorem scope_keyed_by_request i1 i2 req1 req2 res1 res2 (w1 w2 : World C) :
  let E1 := events_of (invoke req1 res1 i1) w1 in
  let E2 := events_of (invoke req2 res2 i2) w2 in
  (forall context, In (EvCreateScope context) E1 -> context = req1) /\
  (forall context, In (EvCreateScope context) E2 -> context = req2) /\
  head E1 = Some (EvCreateScope req1) /\
  head E2 = Some (EvCreateScope req2) /\
  scopes_used E1 = [scope_of req1; scope_of req1] /\
  scopes_used E2 = [scope_of req2; scope_of req2] /\
  (forall s1 s2,
     In s1 (scopes_used E1) -> In s2 (scopes_used E2) -> (s1 = s2 <-> req1 = req2)).
Proof.
  intros E1 E2.
  destruct (invoke_events i1 req1 res1 w1) as (T1 & HE1 & HT1).
  destruct (invoke_events i2 req2 res2 w2) as (T2 & HE2 & HT2).
  fold E1 in HE1. fold E2 in HE2.
  assert (Hcreate : forall req res scoped name (T : list event) context,
            Forall (fun ev => is_call ev = true) T ->
            In (EvCreateScope context)
              (EvCreateScope req :: EvOn res "finish" (Teardown scoped) ::
               EvGetService scoped name :: T) ->
            context = req).
  { intros req res scoped name T context HT [Heq|[Heq|[Heq|Hin]]];
      try discriminate; [congruence|].
    rewrite Forall_forall in HT.
    apply list_elem_of_In, HT in Hin. discriminate. }
  assert (Hused1 : scopes_used E1 = [scope_of req1; scope_of req1]).
  { rewrite HE1. simpl. by rewrite (scopes_used_calls _ HT1). }
  assert (Hused2 : scopes_used E2 = [scope_of req2; scope_of req2]).
  { rewrite HE2. simpl. by rewrite (scopes_used_calls _ HT2). }
  split; [intros context; rewrite HE1; by apply Hcreate|].
  split; [intros context; rewrite HE2; by apply Hcreate|].
  split; [by rewrite HE1|]. split; [by rewrite HE2|].
  split; [exact Hused1|]. split; [exact Hused2|].
  intros s1 s2 Hs1 Hs2. rewrite Hused1 in Hs1. rewrite Hused2 in Hs2.
  assert (s1 = scope_of req1) as -> by (simpl in Hs1; intuition congruence).
  assert (s2 = scope_of req2) as -> by (simpl in Hs2; intuition congruence).
  split; [apply scope_of_inj|by intros ->].
Qed.

End Laws.

(** ** Further properties of one invocation *)

Section Outcomes.
Context {C : Type} `{Injector C} `{UserCode C}.

Implicit Types (w : World C) (st : Store C) (f this v e : value)
  (args : list value) (req res scoped : loc) (name : string).

Lemma callee_not_function (h : gmap loc object) f this :
  typeof h f <> "function" -> callee h f this = None.
Proof.
  destruct f as [| | | | |l|target bthis| | | |]; simpl; try done.
  destruct (h !! l ≫= obj_code); [intros Hn; by destruct Hn|done].
Qed.

Lemma invoke_other_listeners i req res emitter name w :
  (emitter, name) <> (res, "finish") ->
  listeners_of (exec (invoke req res i) w) emitter name = listeners_of w emitter name.
Proof.
  intros Hne. unfold listeners_of.
  destruct (createScope req (store w)) as [[scoped|e] st1] eqn:Hc.
  - destruct (invoke_frame i req res w scoped st1 Hc) as (E & Hl & _ & _).
    rewrite Hl, lookup_insert_ne; [done|]. by intros Heq.
  - unfold exec. by rewrite (invoke_createScope_throws i req res w e st1 Hc).
Qed.

(** X3. When the injector throws on [createScope], the invocation, of any
    of the three adapters, ends at once with a promise rejected with that
    error: no listener is registered on the response and the service is
    not asked for. *)
Theorem scope_failure_stops_invocation i req res w e st :
  createScope req (store w) = (Abrupt e, st) ->
  eval (invoke req res i) w = Ok (VRejected e) /\
  store (exec (invoke req res i) w) = st /\
  listeners (exec (invoke req res i) w) = listeners w /\
  events_of (invoke req res i) w = [EvCreateScope req].
Proof.
  intros Hc. unfold eval, exec, events_of, exec.
  rewrite (invoke_createScope_throws i req res w e st Hc). simpl.
  repeat split. apply drop_app_length.
Qed.

(** X4. An invocation registers on ['finish'] of the response it is given
    and nowhere else: the listeners of every other event and of every other
    emitter stay as they were. *)
Theorem other_listeners_untouched i req res emitter name w :
  (emitter, name) <> (res, "finish") ->
  listeners_of (exec (invoke req res i) w) emitter name = listeners_of w emitter name.
Proof. apply invoke_other_listeners. Qed.

(** X6. [toInjectedMiddleware] does not look at the shape of the instance:
    when its [handle] is missing or is no function, the call of [handle]
    throws a [TypeError], the promise rejects with it, and nothing of the
    application has run; the teardown stays registered. *)
Theorem middleware_without_handle_rejects
  D req res next w scoped st1 instance st2 handle :
  createScope req (store w) = (Normal scoped, st1) ->
  getService scoped (serviceName D) st1 = (Normal instance, st2) ->
  get_prop (heap st2) instance "handle" = Normal handle ->
  typeof (heap st2) handle <> "function" ->
  toInjectedMiddleware D req res next w =
    (Ok (VRejected not_a_function),
     resolved_world w req res scoped (serviceName D) st2).
Proof.
  intros Hc Hg Hp Hh.
  rewrite (toInjectedMiddleware_resolved _ _ _ _ _ _ _ _ _ Hc Hg). cbn zeta.
  unfold eval, exec. rewrite call_method_get. cbn [store resolved_world].
  rewrite Hp, call_callee. cbn [store heap].
  by rewrite (callee_not_function _ _ _ Hh).
Qed.

(** X7. Whatever the call [scopedHandler.handle(req, res, next)] of
    [toInjectedMiddleware] throws, or rejects with, is what the promise of
    the wrapped handler rejects with, in the world of the failure. *)
Theorem middleware_errors_propagate
  D req res next w scoped st1 instance st2 e w3 :
  createScope req (store w) = (Normal scoped, st1) ->
  getService scoped (serviceName D) st1 = (Normal instance, st2) ->
  (let w2 := resolved_world w req res scoped (serviceName D) st2 in
   call_method instance "handle" [VRef req; VRef res; next] w2 = (Throw e, w3) \/
   call_method instance "handle" [VRef req; VRef res; next] w2 = (Ok (VRejected e), w3)) ->
  toInjectedMiddleware D req res next w = (Ok (VRejected e), w3).
Proof.
  intros Hc Hg Hcall.
  rewrite (toInjectedMiddleware_resolved _ _ _ _ _ _ _ _ _ Hc Hg). cbn zeta in *.
  unfold eval, exec. by destruct Hcall as [-> | ->].
Qed.

(** X10. Whatever [getHandler] returns is a function, and is one of two
    values: the instance the scope gave, when that is a function, or else
    the member [handle] of the instance, a function, bound to the instance.
    It returns in the world in which the scope was created, the teardown
    registered and the service asked for. *)
Theorem getHandler_returns_functions name req res w h w1 :
  getHandler name req res w = (Ok h, w1) ->
  exists scoped st1 instance st2,
    createScope req (store w) = (Normal scoped, st1) /\
    getService scoped name st1 = (Normal instance, st2) /\
    w1 = resolved_world w req res scoped name st2 /\
    typeof (heap st2) h = "function" /\
    ((h = instance /\ typeof (heap st2) instance = "function") \/
     (exists handle,
        typeof (heap st2) instance <> "function" /\
        get_prop (heap st2) instance "handle" = Normal handle /\
        typeof (heap st2) handle = "function" /\
        h = VBound handle instance)).
Proof.
  intros Hh.
  destruct (createScope req (store w)) as [[scoped|e] st1] eqn:Hc.
  2: { by rewrite (getHandler_createScope_throws _ _ _ _ _ _ Hc) in Hh. }
  destruct (getService scoped name st1) as [[v|e] st2] eqn:Hg.
  2: { by rewrite (getHandler_getService_throws _ _ _ _ _ _ _ _ Hc Hg) in Hh. }
  rewrite (getHandler_resolved _ _ _ _ _ _ _ _ Hc Hg) in Hh.
  injection Hh as Hk <-. exists scoped, st1, v, st2.
  split; [reflexivity|]. split; [exact Hg|]. split; [reflexivity|].
  unfold classify in Hk.
  destruct (String.eqb (typeof (heap st2) v) "function") eqn:Hv.
  - injection Hk as <-. apply String.eqb_eq in Hv. split; [exact Hv|]. by left.
  - apply String.eqb_neq in Hv.
    destruct (get_prop (heap st2) v "handle") as [handle|e] eqn:Hp; [|discriminate].
    destruct (String.eqb (typeof (heap st2) handle) "function") eqn:Hhd; [|discriminate].
    injection Hk as <-. apply String.eqb_eq in Hhd. split; [reflexivity|].
    right. by exists handle.
Qed.

(** X11. For an instance that is a function and has a member [handle] as
    well, the two adapters run different code: [toInjectedHandler] calls the
    function itself, with no [this], and never its [handle];
    [toInjectedMiddleware] calls [handle] on the instance. *)
Theorem function_with_handle_is_called_itself
  D req res next w scoped st1 instance st2 handle :
  createScope req (store w) = (Normal scoped, st1) ->
  getService scoped (serviceName D) st1 = (Normal instance, st2) ->
  typeof (heap st2) instance = "function" ->
  get_prop (heap st2) instance "handle" = Normal handle ->
  let w2 := resolved_world w req res scoped (serviceName D) st2 in
  let args := [VRef req; VRef res; next] in
  toInjectedHandler (serviceName D) req res next w =
    (Ok (awaited (eval (call instance VUndefined args) w2)),
     exec (call instance VUndefined args) w2) /\
  toInjectedMiddleware D req res next w =
    (Ok (awaited (eval (call handle instance args) w2)),
     exec (call handle instance args) w2).
Proof.
  intros Hc Hg Ht Hp w2 args. split.
  - apply toInjectedHandler_resolved.
    rewrite (getHandler_resolved _ _ _ _ _ _ _ _ Hc Hg).
    by rewrite (classify_callable _ _ _ Ht).
  - rewrite (toInjectedMiddleware_resolved _ _ _ _ _ _ _ _ _ Hc Hg). cbn zeta.
    unfold eval, exec. rewrite call_method_get. cbn [store resolved_world].
    by rewrite Hp.
Qed.

Lemma string_length_app (a b : string) :
  String.length (a +:+ b) = String.length a + String.length b.
Proof.
  induction a as [|c a IH]; [done|].
  change (S (String.length (a +:+ b)) = S (String.length a + String.length b)).
  by rewrite IH.
Qed.

Lemma string_app_cancel_r (a b s : string) : a +:+ s = b +:+ s -> a = b.
Proof.
  revert b. induction a as [|c a IH]; intros [|d b] Heq.
  - done.
  - apply (f_equal String.length) in Heq.
    change (String.length s = S (String.length (b +:+ s))) in Heq.
    rewrite (string_length_app b s) in Heq. lia.
  - apply (f_equal String.length) in Heq.
    change (S (String.length (a +:+ s)) = String.length s) in Heq.
    rewrite (string_length_app a s) in Heq. lia.
  - change (String c (a +:+ s) = String d (b +:+ s)) in Heq.
    injection Heq as -> Heq. f_equal. by apply IH.
Qed.

(** X12. The message of the error for an invalid middleware tells the name
    apart: two different names never give the same message. *)
Theorem invalid_middleware_message_names (name1 name2 : string) :
  name1 <> name2 ->
  invalid_middleware_message name1 <> invalid_middleware_message name2.
Proof.
  intros Hne Heq. apply Hne. unfold invalid_middleware_message in Heq.
  apply (inj (String.app _)) in Heq. apply (inj (String.app _)) in Heq.
  by apply string_app_cancel_r in Heq.
Qed.

End Outcomes.

(** ** Further properties of requests in turn *)

Section Turns.
Context {C : Type} `{Injector C} `{UserCode C} `{!InjectorLaws C}.

Implicit Types (w : World C) (st : Store C) (req res : loc)
  (calls : list (loc * loc * Invocation)).

Lemma invoke_seq_cons c calls w :
  invoke_seq (c :: calls) w = invoke_seq calls (exec (invoke c.1.1 c.1.2 c.2) w).
Proof. reflexivity. Qed.

Lemma scope_of_eqb req1 req2 :
  Pos.eqb (scope_of req1) (scope_of req2) = Pos.eqb req1 req2.
Proof.
  destruct (Pos.eqb_spec req1 req2) as [->|Hne].
  - apply Pos.eqb_refl.
  - apply Pos.eqb_neq. intros Heq. by apply scope_of_inj in Heq.
Qed.

Lemma invoke_seq_listeners res calls w :
  listeners_of (invoke_seq calls w) res "finish" =
    listeners_of w res "finish" ++
    map (fun c => Teardown (scope_of c.1.1)) (List.filter (with_response res) calls).
Proof.
  revert w. induction calls as [|[[req' res'] i] calls IH]; intros w.
  - simpl. by rewrite app_nil_r.
  - rewrite invoke_seq_cons, IH. cbn [fst snd List.filter]. unfold with_response at 2.
    cbn [fst snd]. destruct (Pos.eqb_spec res' res) as [->|Hne].
    + rewrite invoke_listeners. simpl. by rewrite <- app_assoc.
    + rewrite invoke_other_listeners; [done|]. intros Heq. apply Hne. congruence.
Qed.

Lemma filter_calls (p : event -> bool) (E : list event) :
  (forall code this args, p (EvCall code this args) = false) ->
  Forall (fun ev => is_call ev = true) E -> List.filter p E = [].
Proof.
  intros Hp. induction 1 as [|ev E Hev _ IH]; simpl; [done|].
  destruct ev; try discriminate. by rewrite Hp.
Qed.

Lemma invoke_seq_log calls w :
  exists E,
    log (invoke_seq calls w) = log w ++ E /\
    List.filter is_createScope E = map (fun c => EvCreateScope c.1.1) calls /\
    List.filter is_getService E =
      map (fun c => EvGetService (scope_of c.1.1) (service_of c.2)) calls.
Proof.
  revert w. induction calls as [|[[req res] i] calls IH]; intros w.
  - exists []. simpl. by rewrite app_nil_r.
  - destruct (IH (exec (invoke req res i) w)) as (E2 & Hlog2 & Hc2 & Hg2).
    destruct (invoke_frame i req res w _ _ (createScope_succeeds req (store w)))
      as (E1 & _ & Hlog1 & HE1).
    eexists. split; [|split].
    + rewrite invoke_seq_cons. cbn [fst snd]. rewrite Hlog2, Hlog1.
      rewrite <- !app_assoc. reflexivity.
    + rewrite !List.filter_app, Hc2. simpl. by rewrite (filter_calls _ _ (fun _ _ _ => eq_refl) HE1).
    + rewrite !List.filter_app, Hg2. simpl. by rewrite (filter_calls _ _ (fun _ _ _ => eq_refl) HE1).
Qed.

Lemma endScope_calls_handled req res calls :
  endScope_calls (scope_of req)
    (map EvEndScope (map (fun c => scope_of c.1.1) (List.filter (with_response res) calls))) =
  length (List.filter (handled_with req res) calls).
Proof.
  unfold endScope_calls.
  induction calls as [|[[req' res'] i] calls IH]; [done|].
  cbn [List.filter]. unfold with_response at 1, handled_with at 1. cbn [fst snd].
  destruct (Pos.eqb res' res); simpl.
  - rewrite scope_of_eqb, andb_true_r. destruct (Pos.eqb req' req); simpl; by rewrite IH.
  - by rewrite andb_false_r.
Qed.

(** X8. Nothing is kept from one invocation to the next: every invocation
    asks the injector for the scope of its request and asks that scope for
    its service, once each and in the order of the invocations. *)
Theorem every_invocation_asks_again calls w :
  let E := drop (length (log w)) (log (invoke_seq calls w)) in
  List.filter is_createScope E = map (fun c => EvCreateScope c.1.1) calls /\
  List.filter is_getService E =
    map (fun c => EvGetService (scope_of c.1.1) (service_of c.2)) calls.
Proof.
  intros E. destruct (invoke_seq_log calls w) as (E' & Hlog & Hc & Hg).
  unfold E. rewrite Hlog, drop_app_length. by split.
Qed.

(** X9. With requests taking turns, ['finish'] of a response that nothing
    listened to ends the scopes of the requests that were handled with that
    response, in the order of the invocations and once for each of them, and
    no other scope: [endScope] is called on the scope of a request as often
    as handlers were invoked with that request and that response. *)
Theorem finish_ends_scopes_of_its_response req res calls w :
  listeners_of w res "finish" = [] ->
  let finished := invoke_seq calls w in
  events_of (response_emit res "finish") finished =
    map (fun c => EvEndScope (scope_of c.1.1)) (List.filter (with_response res) calls) /\
  endScope_calls (scope_of req) (events_of (response_emit res "finish") finished) =
    length (List.filter (handled_with req res) calls).
Proof.
  intros Hfresh finished.
  assert (Hev : events_of (response_emit res "finish") finished =
            map EvEndScope
              (map (fun c => scope_of c.1.1) (List.filter (with_response res) calls))).
  { unfold events_of, exec, response_emit, finished.
    rewrite invoke_seq_listeners, Hfresh. simpl.
    rewrite <- (map_map (fun c => scope_of c.1.1) Teardown).
    rewrite call_listeners_teardowns. simpl. by rewrite drop_app_length. }
  split.
  - rewrite Hev. by rewrite map_map.
  - rewrite Hev. apply endScope_calls_handled.
Qed.

End Turns.

(** * The code on the reference container *)

Import Reference.

(** The scenario of the tests: two handlers invoked for one request increment
    the same counter. *)
Example two_handlers_share_the_counter :
  track (invoke_all reqA resA
           [InvokeHandler "IncrementingMiddleware" (VRef next);
            InvokeHandler "incrementHandler" (VRef next)] w0) = VNum 2.
Proof. reflexivity. Qed.

(** A [handle] method keeps its state from one invocation to the next. *)
Example handle_method_keeps_state :
  track (invoke_all reqA resA
           [InvokeHandler "IncrementingMiddleware" (VRef next);
            InvokeMiddleware (ByType (MkConstructor "IncrementingMiddleware")) (VRef next);
            InvokeHandler "IncrementingMiddleware" (VRef next)] w0) = VNum 3.
Proof. reflexivity. Qed.

(** The error adapter hands the error to a [handle] method in front of the
    other arguments. *)
Example error_handler_call :
  events_of (toInjectedErrorHandler "IncrementingMiddleware" boom reqA resA (VRef next)) w0 =
    [EvCreateScope reqA; EvOn resA "finish" (Teardown 5);
     EvGetService 5 "IncrementingMiddleware";
     EvCall 1 (VRef middleware) [boom; VRef reqA; VRef resA; VRef next]].
Proof. reflexivity. Qed.

(** A primitive is reported as an invalid middleware. *)
Example number_instance_is_reported :
  eval (getHandler "port" reqA resA) w0 =
    Throw (VError "Error" (invalid_middleware_message "port")).
Proof. reflexivity. Qed.

(** C1, as stated, fails: two handlers invoked for one request leave two
    teardown listeners, and ['finish'] calls [endScope] on the scope of the
    request twice. *)
Lemma two_handlers_two_teardowns :
  let calls := [InvokeHandler "IncrementingMiddleware" (VRef next);
                InvokeHandler "incrementHandler" (VRef next)] in
  let finished := invoke_all reqA resA calls w0 in
  listeners_of w0 resA "finish" = [] /\
  events_of (response_emit resA "finish") finished =
    [EvEndScope (scope_of reqA); EvEndScope (scope_of reqA)] /\
  endScope_calls (scope_of reqA) (events_of (response_emit resA "finish") finished) = 2 /\
  endScope_calls (scope_of reqA) (events_of (response_emit resA "finish") finished) <> 1.
Proof. repeat split; try reflexivity. vm_compute. discriminate. Qed.

(** One handler invoked on a response that [next] already listens to: one
    call of [endScope], after the call of [next]. *)
Lemma teardown_once_per_invocation_witness :
  let w := exec (response_on resA "finish" (Listener (VRef next))) w0 in
  let finished :=
    invoke_all reqA resA [InvokeHandler "IncrementingMiddleware" (VRef next)] w in
  eval (call_listeners (VRef resA) (listeners_of w resA "finish")) finished = Ok tt /\
  events_of (response_emit resA "finish") finished =
    [EvCall 5 (VRef resA) []; EvEndScope (scope_of reqA)] /\
  endScope_calls (scope_of reqA) (events_of (response_emit resA "finish") finished) = 1.
Proof.
  split; [reflexivity|].
  destruct (teardown_once_per_invocation reqA resA
              [InvokeHandler "IncrementingMiddleware" (VRef next)]
              (exec (response_on resA "finish" (Listener (VRef next))) w0))
    as [Hev Hcount]; [reflexivity|].
  split; [exact Hev|exact Hcount].
Defined.

(** The service [incrementHandler] is a function. *)
Lemma callable_instance_is_the_handler_witness :
  let w2 := resolved_world w0 reqA resA 5 "incrementHandler" (store w0) in
  let direct := call (VRef increment_handler) VUndefined [VRef reqA; VRef resA; VRef next] in
  typeof (heap (store w0)) (VRef increment_handler) = "function" /\
  getHandler "incrementHandler" reqA resA w0 = (Ok (VRef increment_handler), w2) /\
  toInjectedHandler "incrementHandler" reqA resA (VRef next) w0 =
    (Ok (awaited (eval direct w2)), exec direct w2).
Proof.
  split; [reflexivity|].
  destruct (callable_instance_is_the_handler "incrementHandler" reqA resA (VRef next) w0
              5%positive (store w0) (VRef increment_handler) (store w0))
    as (Hget & Hrun & _); [reflexivity|reflexivity|reflexivity|].
  split; [exact Hget|exact Hrun].
Defined.

(** The service [IncrementingMiddleware] is an object with [handle]. *)
Lemma handle_method_is_bound_to_instance_witness :
  typeof (heap (store w0)) (VRef middleware) <> "function" /\
  get_prop (heap (store w0)) (VRef middleware) "handle" = Normal (VRef handle_method) /\
  typeof (heap (store w0)) (VRef handle_method) = "function" /\
  exists normalized,
    getHandler "IncrementingMiddleware" reqA resA w0 =
      (Ok normalized,
       resolved_world w0 reqA resA 5 "IncrementingMiddleware" (store w0)) /\
    forall this args w',
      call normalized this args w' = call (VRef handle_method) (VRef middleware) args w'.
Proof.
  split; [vm_compute; discriminate|]. split; [reflexivity|]. split; [reflexivity|].
  destruct (handle_method_is_bound_to_instance "IncrementingMiddleware" reqA resA w0
              5%positive (store w0) (VRef middleware) (store w0) (VRef handle_method))
    as (normalized & Hget & Hcall & _);
    [reflexivity|reflexivity|vm_compute; discriminate|reflexivity|reflexivity|].
  exists normalized. split; [exact Hget|exact Hcall].
Defined.

(** C4 fails on an instance that is [null]: it is no function and has no
    [handle], but reading [handle] of it throws a [TypeError], which is not
    the error that names the identifier. *)
Theorem null_instance_is_not_reported :
  getService 5%positive "nothing" (store w0) = (Normal VNull, store w0) /\
  typeof (heap (store w0)) VNull <> "function" /\
  getHandler "nothing" reqA resA w0 =
    (Throw (TypeError "Cannot read properties of null (reading 'handle')"),
     resolved_world w0 reqA resA 5 "nothing" (store w0)) /\
  eval (getHandler "nothing" reqA resA) w0 <>
    Throw (VError "Error" (invalid_middleware_message "nothing")).
Proof.
  split; [reflexivity|]. split; [vm_compute; discriminate|].
  split; [reflexivity|]. vm_compute. discriminate.
Qed.

(** Requests A and B get the scopes 5 and 13. *)
Lemma scope_keyed_by_request_witness :
  scopes_used (events_of (invoke reqA resA (InvokeHandler "IncrementingMiddleware" (VRef next))) w0) =
    [5%positive; 5%positive] /\
  scopes_used (events_of (invoke reqB resB (InvokeMiddleware (ByName "missing") (VRef next))) w0) =
    [13%positive; 13%positive].
Proof.
  pose proof (scope_keyed_by_request
                (InvokeHandler "IncrementingMiddleware" (VRef next))
                (InvokeMiddleware (ByName "missing") (VRef next))
                reqA reqB resA resB w0 w0) as (_ & _ & _ & _ & H1 & H2 & _).
  split; [exact H1|exact H2].
Defined.

(** C6, as stated, fails: ['finish'] can be emitted while the promise of a
    handler is still pending, and the teardown runs then; a handler invoked
    for the same request after that still runs, after the teardown. *)
Lemma teardown_fires_while_handler_pending :
  let pending := invoke reqA resA (InvokeHandler "sleeper" (VRef next)) in
  let finished := exec (response_emit resA "finish") (exec pending w0) in
  eval pending w0 = Ok VPending /\
  events_of (response_emit resA "finish") (exec pending w0) = [EvEndScope 5] /\
  log (exec (invoke reqA resA (InvokeHandler "incrementHandler" (VRef next))) finished) =
    [EvCreateScope reqA; EvOn resA "finish" (Teardown 5); EvGetService 5 "sleeper";
     EvCall 4 VUndefined [VRef reqA; VRef resA; VRef next];
     EvEndScope 5;
     EvCreateScope reqA; EvOn resA "finish" (Teardown 5);
     EvGetService 5 "incrementHandler";
     EvCall 0 VUndefined [VRef reqA; VRef resA; VRef next]].
Proof. repeat split; reflexivity. Qed.

(** A handler that throws: the teardown was registered before its call, and
    no [endScope] is called while the handlers run. *)
Lemma teardown_registered_before_handler_runs_witness :
  createScope reqA (store w0) = (Normal 5%positive, store w0) /\
  (exists E,
     events_of (invoke reqA resA (InvokeHandler "thrower" (VRef next))) w0 =
       EvCreateScope reqA :: EvOn resA "finish" (Teardown 5) ::
       EvGetService 5 "thrower" :: E /\
     Forall (fun ev => is_call ev = true) E /\
     last (listeners_of (exec (invoke reqA resA (InvokeHandler "thrower" (VRef next))) w0)
             resA "finish") = Some (Teardown 5)) /\
  endScope_calls 5
    (drop (length (log w0))
       (log (invoke_all reqA resA
               [InvokeHandler "IncrementingMiddleware" (VRef next);
                InvokeHandler "thrower" (VRef next)] w0))) = 0.
Proof.
  split; [reflexivity|].
  destruct (teardown_registered_before_handler_runs
              (InvokeHandler "thrower" (VRef next)) reqA resA w0)
    as (Hok & _ & _ & Hnone).
  split; [apply (Hok 5%positive (store w0)); reflexivity|exact (Hnone _ 5%positive)].
Defined.

(** The error adapter on [IncrementingMiddleware]. *)
Lemma adapters_forward_arguments_and_await_witness :
  let h := VBound (VRef handle_method) (VRef middleware) in
  let w1 := resolved_world w0 reqA resA 5 "IncrementingMiddleware" (store w0) in
  getHandler "IncrementingMiddleware" reqA resA w0 = (Ok h, w1) /\
  toInjectedErrorHandler "IncrementingMiddleware" boom reqA resA (VRef next) w0 =
    (Ok (awaited (eval (call h VUndefined [boom; VRef reqA; VRef resA; VRef next]) w1)),
     exec (call h VUndefined [boom; VRef reqA; VRef resA; VRef next]) w1).
Proof.
  split; [reflexivity|].
  exact (proj1 (proj2 (adapters_forward_arguments_and_await "IncrementingMiddleware" boom
                         reqA resA (VRef next) w0 _ _ eq_refl))).
Defined.

(** A name that is not registered, a handler that throws and one that
    rejects. *)
Lemma errors_propagate_unchanged_witness :
  toInjectedHandler "missing" reqA resA (VRef next) w0 =
    (Ok (VRejected (ServiceNotFound "missing")),
     resolved_world w0 reqA resA 5 "missing" (store w0)) /\
  eval (toInjectedHandler "thrower" reqA resA (VRef next)) w0 = Ok (VRejected boom) /\
  eval (toInjectedHandler "rejecter" reqA resA (VRef next)) w0 = Ok (VRejected boom).
Proof.
  split; [|split].
  - apply errors_propagate_unchanged.
    apply (ServiceFails "missing" reqA resA _ w0 5%positive (store w0)); reflexivity.
  - unfold eval.
    rewrite (errors_propagate_unchanged "thrower" reqA resA (VRef next) w0 boom
               (exec (toInjectedHandler "thrower" reqA resA (VRef next)) w0));
      [reflexivity|].
    apply (HandlerThrows "thrower" reqA resA _ w0 (VRef thrower)
             (resolved_world w0 reqA resA 5 "thrower" (store w0))); reflexivity.
  - unfold eval.
    rewrite (errors_propagate_unchanged "rejecter" reqA resA (VRef next) w0 boom
               (exec (toInjectedHandler "rejecter" reqA resA (VRef next)) w0));
      [reflexivity|].
    apply (HandlerRejects "rejecter" reqA resA _ w0 (VRef rejecter)
             (resolved_world w0 reqA resA 5 "rejecter" (store w0))); reflexivity.
Defined.

(** C9, as stated, fails: a service that is a plain function is called by
    [toInjectedHandler], while [toInjectedMiddleware] calls its missing
    [handle] and rejects without running it. *)
Lemma middleware_rejects_function_service :
  eval (toInjectedHandler "incrementHandler" reqA resA (VRef next)) w0 =
    Ok (VFulfilled VUndefined) /\
  eval (toInjectedMiddleware (ByName "incrementHandler") reqA resA (VRef next)) w0 =
    Ok (VRejected not_a_function) /\
  track (exec (toInjectedHandler "incrementHandler" reqA resA (VRef next)) w0) = VNum 1 /\
  track (exec (toInjectedMiddleware (ByName "incrementHandler") reqA resA (VRef next)) w0) =
    VNum 0 /\
  toInjectedMiddleware (ByName "incrementHandler") reqA resA (VRef next) w0 <>
    toInjectedHandler "incrementHandler" reqA resA (VRef next) w0.
Proof.
  repeat split; try reflexivity.
  intros Heq. apply (f_equal fst) in Heq. vm_compute in Heq. discriminate.
Qed.

(** The class [IncrementingMiddleware] given by type. *)
Lemma middleware_agrees_on_handle_objects_witness :
  let D := ByType (MkConstructor "IncrementingMiddleware") in
  getService 5%positive (serviceName D) (store w0) = (Normal (VRef middleware), store w0) /\
  toInjectedMiddleware D reqA resA (VRef next) w0 =
    toInjectedHandler "IncrementingMiddleware" reqA resA (VRef next) w0.
Proof.
  split; [reflexivity|].
  apply (middleware_agrees_on_handle_objects (ByType (MkConstructor "IncrementingMiddleware"))
           reqA resA (VRef next) w0 5%positive (store w0) (VRef middleware) (store w0)
           (VRef handle_method));
    try reflexivity; vm_compute; discriminate.
Defined.

(** C10, as stated, fails: when a listener registered on ['finish'] before
    the invocation throws, the emission ends there and the teardown the
    failed invocation registered does not run. *)
Lemma earlier_listener_stops_teardown :
  let w := exec (response_on resA "finish" (Listener (VRef thrower))) w0 in
  let i := InvokeMiddleware (ByName "missing") (VRef next) in
  let w' := exec (invoke reqA resA i) w in
  eval (invoke reqA resA i) w = Ok (VRejected (ServiceNotFound "missing")) /\
  listeners_of w' resA "finish" = [Listener (VRef thrower); Teardown 5] /\
  eval (response_emit resA "finish") w' = Throw boom /\
  events_of (response_emit resA "finish") w' = [EvCall 2 (VRef resA) []] /\
  endScope_calls 5 (events_of (response_emit resA "finish") w') = 0.
Proof. repeat split; reflexivity. Qed.

(** A name that is not registered, asked for through the middleware
    variant, on a response that [next] already listens to. *)
Lemma resolution_failure_keeps_teardown_witness :
  let w := exec (response_on resA "finish" (Listener (VRef next))) w0 in
  let i := InvokeMiddleware (ByName "missing") (VRef next) in
  let w' := exec (invoke reqA resA i) w in
  getService 5%positive "missing" (store w) = (Abrupt (ServiceNotFound "missing"), store w) /\
  eval (call_listeners (VRef resA) (listeners_of w resA "finish")) w' = Ok tt /\
  listeners_of w' resA "finish" = [Listener (VRef next); Teardown 5] /\
  last (events_of (response_emit resA "finish") w') = Some (EvEndScope 5).
Proof.
  split; [reflexivity|]. split; [reflexivity|].
  destruct (resolution_failure_keeps_teardown
              (InvokeMiddleware (ByName "missing") (VRef next)) reqA resA
              (exec (response_on resA "finish" (Listener (VRef next))) w0)
              5%positive (store w0) (ServiceNotFound "missing") (store w0))
    as (_ & Hl & Hfinish); [reflexivity|reflexivity|].
  split; [exact Hl|]. apply Hfinish. reflexivity.
Defined.

(** ** Further properties, on the reference container *)

Import Closed Shapes.

(** The service [settings] is an object without [handle]. *)
Lemma invalid_shape_reported_witness :
  typeof (heap (store w0)) (VRef settings) <> "function" /\
  get_prop (heap (store w0)) (VRef settings) "handle" = Normal VUndefined /\
  typeof (heap (store w0)) VUndefined <> "function" /\
  getHandler "settings" reqA resA w0 =
    (Throw (VError "Error" (invalid_middleware_message "settings")),
     resolved_world w0 reqA resA 5 "settings" (store w0)).
Proof.
  assert (H1 : typeof (heap (store w0)) (VRef settings) <> "function")
    by (vm_compute; discriminate).
  assert (H2 : typeof (heap (store w0)) VUndefined <> "function")
    by (vm_compute; discriminate).
  split; [exact H1|]. split; [reflexivity|]. split; [exact H2|].
  exact (proj1 (invalid_shape_reported "settings" reqA resA w0 5%positive (store w0)
                  (VRef settings) (store w0) VUndefined eq_refl eq_refl H1 eq_refl H2)).
Defined.

(** The service [nothing] is [null]. *)
Lemma nullish_instance_throws_witness :
  getService 5%positive "nothing" (store w0) = (Normal VNull, store w0) /\
  exists message,
    getHandler "nothing" reqA resA w0 =
      (Throw (TypeError message), resolved_world w0 reqA resA 5 "nothing" (store w0)) /\
    TypeError message <> VError "Error" (invalid_middleware_message "nothing").
Proof.
  split; [reflexivity|].
  exact (nullish_instance_throws "nothing" reqA resA w0 5%positive (store w0) VNull
           (store w0) eq_refl eq_refl (or_introl eq_refl)).
Defined.

(** An injector that creates no scope. *)
Lemma scope_failure_stops_invocation_witness :
  createScope reqA (store w_closed) = (Abrupt closed, store w_closed) /\
  eval (invoke reqA resA (InvokeErrorHandler "LoggingMiddleware" boom VUndefined)) w_closed =
    Ok (VRejected closed) /\
  events_of (invoke reqA resA (InvokeErrorHandler "LoggingMiddleware" boom VUndefined))
    w_closed = [EvCreateScope reqA].
Proof.
  split; [reflexivity|].
  destruct (scope_failure_stops_invocation
              (InvokeErrorHandler "LoggingMiddleware" boom VUndefined) reqA resA w_closed
              closed (store w_closed)) as (Hr & _ & _ & He); [reflexivity|].
  split; [exact Hr|exact He].
Defined.

(** A handler invoked with the response of A leaves the response of B alone. *)
Lemma other_listeners_untouched_witness :
  (resB, "finish") <> (resA, "finish") /\
  listeners_of
    (exec (invoke reqA resA (InvokeHandler "IncrementingMiddleware" (VRef next))) w0)
    resB "finish" = listeners_of w0 resB "finish".
Proof.
  assert (Hne : (resB, "finish") <> (resA, "finish")) by discriminate.
  split; [exact Hne|].
  exact (other_listeners_untouched (InvokeHandler "IncrementingMiddleware" (VRef next))
           reqA resA resB "finish" w0 Hne).
Defined.

(** The error adapter on a name that is not registered. *)
Lemma error_adapter_errors_propagate_witness :
  toInjectedErrorHandler "missing" boom reqA resA (VRef next) w0 =
    (Ok (VRejected (ServiceNotFound "missing")),
     resolved_world w0 reqA resA 5 "missing" (store w0)).
Proof.
  apply error_adapter_errors_propagate.
  apply (ServiceFails "missing" reqA resA _ w0 5%positive (store w0)); reflexivity.
Defined.

(** The service [settings] through the middleware variant. *)
Lemma middleware_without_handle_rejects_witness :
  get_prop (heap (store w0)) (VRef settings) "handle" = Normal VUndefined /\
  toInjectedMiddleware (ByName "settings") reqA resA (VRef next) w0 =
    (Ok (VRejected not_a_function),
     resolved_world w0 reqA resA 5 "settings" (store w0)).
Proof.
  split; [reflexivity|].
  apply (middleware_without_handle_rejects (ByName "settings") reqA resA (VRef next) w0
           5%positive (store w0) (VRef settings) (store w0) VUndefined);
    try reflexivity.
  vm_compute; discriminate.
Defined.

(** The service [nothing] through the middleware variant: reading [handle]
    of [null] throws. *)
Lemma middleware_errors_propagate_witness :
  toInjectedMiddleware (ByName "nothing") reqA resA (VRef next) w0 =
    (Ok (VRejected (TypeError "Cannot read properties of null (reading 'handle')")),
     resolved_world w0 reqA resA 5 "nothing" (store w0)).
Proof.
  apply (middleware_errors_propagate (ByName "nothing") reqA resA (VRef next) w0
           5%positive (store w0) VNull (store w0)); try reflexivity.
  left. reflexivity.
Defined.

(** Three invocations, two requests. *)
Lemma every_invocation_asks_again_witness :
  let calls :=
    [(reqA, resA, InvokeHandler "IncrementingMiddleware" (VRef next));
     (reqB, resB, InvokeMiddleware (ByName "IncrementingMiddleware") (VRef next));
     (reqA, resA, InvokeHandler "missing" (VRef next))] in
  List.filter is_getService (drop (length (log w0)) (log (invoke_seq calls w0))) =
    [EvGetService 5 "IncrementingMiddleware"; EvGetService 13 "IncrementingMiddleware";
     EvGetService 5 "missing"].
Proof.
  exact (proj2 (every_invocation_asks_again
                  [(reqA, resA, InvokeHandler "IncrementingMiddleware" (VRef next));
                   (reqB, resB, InvokeMiddleware (ByName "IncrementingMiddleware") (VRef next));
                   (reqA, resA, InvokeHandler "missing" (VRef next))] w0)).
Defined.

(** Requests A and B handled with the response of A, as with the one mock
    response of the tests, and request A handled with the response of B. *)
Lemma finish_ends_scopes_of_its_response_witness :
  let calls :=
    [(reqA, resA, InvokeHandler "IncrementingMiddleware" (VRef next));
     (reqB, resA, InvokeHandler "IncrementingMiddleware" (VRef next));
     (reqA, resB, InvokeHandler "incrementHandler" (VRef next))] in
  listeners_of w0 resA "finish" = [] /\
  events_of (response_emit resA "finish") (invoke_seq calls w0) =
    [EvEndScope 5; EvEndScope 13] /\
  endScope_calls 5 (events_of (response_emit resA "finish") (invoke_seq calls w0)) = 1.
Proof.
  split; [reflexivity|].
  exact (finish_ends_scopes_of_its_response reqA resA
           [(reqA, resA, InvokeHandler "IncrementingMiddleware" (VRef next));
            (reqB, resA, InvokeHandler "IncrementingMiddleware" (VRef next));
            (reqA, resB, InvokeHandler "incrementHandler" (VRef next))] w0 eq_refl).
Defined.

(** The handler of [IncrementingMiddleware] is its [handle] bound to it. *)
Lemma getHandler_returns_functions_witness :
  let w1 := resolved_world w0 reqA resA 5 "IncrementingMiddleware" (store w0) in
  let h := VBound (VRef handle_method) (VRef middleware) in
  getHandler "IncrementingMiddleware" reqA resA w0 = (Ok h, w1) /\
  exists scoped (st1 : Store Container) instance (st2 : Store Container),
    getService scoped "IncrementingMiddleware" st1 = (Normal instance, st2) /\
    typeof (heap st2) h = "function" /\
    ((h = instance /\ typeof (heap st2) instance = "function") \/
     (exists handle,
        typeof (heap st2) instance <> "function" /\
        get_prop (heap st2) instance "handle" = Normal handle /\
        typeof (heap st2) handle = "function" /\
        h = VBound handle instance)).
Proof.
  split; [reflexivity|].
  destruct (getHandler_returns_functions "IncrementingMiddleware" reqA resA w0
              (VBound (VRef handle_method) (VRef middleware))
              (resolved_world w0 reqA resA 5 "IncrementingMiddleware" (store w0)))
    as (scoped & st1 & instance & st2 & _ & Hg & _ & Ht & Hshape); [reflexivity|].
  exists scoped, st1, instance, st2. split; [exact Hg|]. split; [exact Ht|exact Hshape].
Defined.

(** The service [both]: the standard adapter runs the function (code 0), the
    middleware variant its [handle] (code 1) on it. *)
Lemma function_with_handle_is_called_itself_witness :
  typeof (heap (store w_both)) (VRef both) = "function" /\
  get_prop (heap (store w_both)) (VRef both) "handle" = Normal (VRef handle_method) /\
  events_of (toInjectedHandler "both" reqA resA (VRef next)) w_both =
    [EvCreateScope reqA; EvOn resA "finish" (Teardown 5); EvGetService 5 "both";
     EvCall 0 VUndefined [VRef reqA; VRef resA; VRef next]] /\
  events_of (toInjectedMiddleware (ByName "both") reqA resA (VRef next)) w_both =
    [EvCreateScope reqA; EvOn resA "finish" (Teardown 5); EvGetService 5 "both";
     EvCall 1 (VRef both) [VRef reqA; VRef resA; VRef next]].
Proof.
  split; [reflexivity|]. split; [reflexivity|].
  destruct (function_with_handle_is_called_itself (ByName "both") reqA resA (VRef next)
              w_both 5%positive (store w_both) (VRef both) (store w_both)
              (VRef handle_method)) as [Hh Hm]; [reflexivity..|].
  cbn [serviceName] in Hh, Hm.
  unfold events_of, exec. rewrite Hh, Hm. split; reflexivity.
Defined.

(** Two names, one a prefix of the other. *)
Lemma invalid_middleware_message_names_witness :
  "Logger" <> "LoggerMiddleware" /\
  invalid_middleware_message "Logger" <> invalid_middleware_message "LoggerMiddleware".
Proof.
  assert (Hne : "Logger" <> "LoggerMiddleware") by discriminate.
  split; [exact Hne|]. exact (invalid_middleware_message_names _ _ Hne).
Defined.
